(** * Label resolution of the AGROVOC and GEMET thesaurus loaders

    A shallow embedding of [load_agrovoc_thesaurus.py] and
    [load_gemet_thesaurus.py]: the RDF graph as the loaders query it, the
    language selector, the two label resolvers and the two [load_thesaurus]
    commands, written in a small state-and-exception monad whose state is
    the persistence sink and the two output streams. *)

From Stdlib Require Import String Ascii List Bool Arith NArith Lia.
From Stdlib Require Import Permutation Sorted OrdersEx RelationClasses.
From Stdlib Require Import Decimal DecimalString.
Import ListNotations.
Open Scope string_scope.

(** ** Python values *)

(** Exceptions the two commands can see.  [UniquenessError] is rdflib's, from
    [Graph.value(..., any=False)]; [IntegrityError] is what a refused [save()]
    raises. *)
Inductive Exc : Type :=
| CommandError (msg : string)
| UniquenessError
| IndexError
| AttributeError
| TypeError
| IntegrityError.

(** A computation that returns or raises. *)
Definition result (A : Type) : Type := (Exc + A)%type.

(** A [string] stands for a Python [str] of code points below U+0100, one
    character each.  [lower_char] is [str.lower()] on one of them: the
    letters [A]-[Z], and the capital letters U+00C0-U+00DE of Latin-1 save
    the multiplication sign U+00D7, move up by 32; every other code point of
    the range is its own lower case. *)
Definition lower_char (c : ascii) : ascii :=
  let n := nat_of_ascii c in
  if ((65 <=? n) && (n <=? 90)
      || (192 <=? n) && (n <=? 222) && negb (n =? 215))%nat
  then ascii_of_nat (n + 32) else c.

(** [str.lower()]. *)
Fixpoint lower (s : string) : string :=
  match s with
  | EmptyString => EmptyString
  | String c r => String (lower_char c) (lower r)
  end.

(** [s.split("-")[0]]: the text before the first hyphen, all of [s] when it
    has none. *)
Fixpoint split_hyphen_0 (s : string) : string :=
  match s with
  | EmptyString => EmptyString
  | String c r => if Ascii.eqb c "-" then EmptyString else String c (split_hyphen_0 r)
  end.

(** [sorted(l, key=key)]: Python's sort is stable and compares keys with [<]
    only.  An element moves right past the keys strictly below its own, so
    equal keys keep the order they had in [l].  Strings are compared
    character by character, which is Python's order by code point. *)
Section PySorted.
Variable A : Type.
Variable key : A -> string.

Fixpoint insert_by_key (x : A) (l : list A) : list A :=
  match l with
  | [] => [x]
  | y :: l' =>
      if String.ltb (key y) (key x) then y :: insert_by_key x l' else x :: y :: l'
  end.

Definition sorted (l : list A) : list A := fold_right insert_by_key [] l.

(** What [sorted] promises: the same elements, keys in non-decreasing
    order, and the elements of each key in their original order. *)
Definition is_stable_sort (l l' : list A) : Prop :=
  Permutation l l'
  /\ StronglySorted (fun a b => String.leb (key a) (key b) = true) l'
  /\ forall k, filter (fun a => String.eqb (key a) k) l'
               = filter (fun a => String.eqb (key a) k) l.
End PySorted.

Arguments insert_by_key {A} key x l.
Arguments sorted {A} key l.
Arguments is_stable_sort {A} key l l'.

(** ** rdflib terms and graphs *)

(** The Python value rdflib computed for a typed literal, told apart as far
    as [value.replace(tzinfo=None).isoformat()] does, the one thing the
    loaders do with it:
    - a [datetime.datetime] and a [datetime.time] ([xsd:dateTime],
      [xsd:time]) take the call, [isoformat] being what it returns;
    - a [datetime.date] ([xsd:date], [xsd:gYear], ...) has a [replace] that
      knows no [tzinfo], a [str] or [bytes] ([xsd:string],
      [xsd:hexBinary], ...) a [replace] that takes no keyword: [TypeError];
    - an [int], [float], [bool], [Decimal], a duration or an XML document
      has no [replace] at all: [AttributeError]. *)
Inductive PyValue : Type :=
| PyDatetime (isoformat : string)
| PyTime (isoformat : string)
| PyDate
| PyStr
| PyNoReplace.

(** An rdflib [Literal]: its lexical form ([str(l)]), its language tag, and
    what [l.toPython()] returns: [Some v] for the value of a typed literal,
    [None] for the literal itself, which rdflib returns when it has no value
    (no datatype, an unknown one, or an ill-formed lexical form) and which is
    a [str]. *)
Record Literal : Type := mkLiteral {
  lexical : string;
  language : option string;
  toPython : option PyValue
}.

Definition pyvalue_eqb (a b : PyValue) : bool :=
  match a, b with
  | PyDatetime x, PyDatetime y => String.eqb x y
  | PyTime x, PyTime y => String.eqb x y
  | PyDate, PyDate => true
  | PyStr, PyStr => true
  | PyNoReplace, PyNoReplace => true
  | _, _ => false
  end.

(** Objects of a triple: a node ([URIRef] or [BNode], both [str] subclasses)
    or a literal.  Subjects and predicates are nodes. *)
Inductive Term : Type :=
| TNode (uri : string)
| TLit (l : Literal).

Record Triple : Type := mkTriple {
  subj : string;
  pred : string;
  obj : Term
}.

(** The parsed graph, in the order its store enumerates the triples. *)
Definition Graph : Type := list Triple.

Definition term_str (t : Term) : string :=
  match t with
  | TNode u => u
  | TLit l => lexical l
  end.

Definition literal_eqb (a b : Literal) : bool :=
  String.eqb (lexical a) (lexical b)
  && match language a, language b with
     | None, None => true
     | Some x, Some y => String.eqb x y
     | _, _ => false
     end
  && match toPython a, toPython b with
     | None, None => true
     | Some x, Some y => pyvalue_eqb x y
     | _, _ => false
     end.

Definition term_eqb (a b : Term) : bool :=
  match a, b with
  | TNode x, TNode y => String.eqb x y
  | TLit x, TLit y => literal_eqb x y
  | _, _ => false
  end.

(** [g.objects(subject, predicate)]; [predicate=None] matches every
    predicate.  A literal is the subject of no triple. *)
Definition objects (g : Graph) (subject : Term) (predicate : option string) : list Term :=
  match subject with
  | TLit _ => []
  | TNode s =>
      map obj
        (filter (fun t => String.eqb (subj t) s
                          && match predicate with
                             | None => true
                             | Some p => String.eqb (pred t) p
                             end) g)
  end.

(** [g.subjects(predicate, object)]. *)
Definition subjects (g : Graph) (predicate : string) (object : Term) : list string :=
  map subj (filter (fun t => String.eqb (pred t) predicate && term_eqb (obj t) object) g).

(** [g.value(subject, predicate, None)]: the first object, [None] without
    one. *)
Definition value (g : Graph) (subject : Term) (predicate : string) : option Term :=
  hd_error (objects g subject (Some predicate)).

(** [g.value(None, predicate, object, any=False)]: the only subject, [None]
    without one, [UniquenessError] with several. *)
Definition value_subject_unique (g : Graph) (predicate : string) (object : Term)
  : result (option string) :=
  match subjects g predicate object with
  | [] => inr None
  | [s] => inr (Some s)
  | _ :: _ :: _ => inl UniquenessError
  end.

(** [Literal(x)] for the [x] that [g.value] hands over: a literal is copied,
    a node is a plain string, and [None] becomes the untagged literal whose
    text is ["None"]. *)
Definition Literal_of (x : option Term) : Literal :=
  match x with
  | Some (TLit l) => l
  | Some (TNode u) => mkLiteral u None None
  | None => mkLiteral "None" None None
  end.

(** [t for t in ts if isinstance(t, Literal)]. *)
Fixpoint literals_only (ts : list Term) : list Literal :=
  match ts with
  | [] => []
  | TLit l :: r => l :: literals_only r
  | TNode _ :: r => literals_only r
  end.

(** ** Vocabulary *)

Definition RDF_type : string := "http://www.w3.org/1999/02/22-rdf-syntax-ns#type".
Definition RDFS_label : string := "http://www.w3.org/2000/01/rdf-schema#label".
Definition SKOS_ConceptScheme : string := "http://www.w3.org/2004/02/skos/core#ConceptScheme".
Definition SKOS_Concept : string := "http://www.w3.org/2004/02/skos/core#Concept".
Definition SKOS_inScheme : string := "http://www.w3.org/2004/02/skos/core#inScheme".
Definition SKOS_prefLabel : string := "http://www.w3.org/2004/02/skos/core#prefLabel".
Definition DC_description : string := "http://purl.org/dc/elements/1.1/description".
Definition DCTERMS_modified : string := "http://purl.org/dc/terms/modified".
Definition DCTERMS_issued : string := "http://purl.org/dc/terms/issued".

Module SKOS_XL.
Definition prefLabel : string := "http://www.w3.org/2008/05/skos-xl#prefLabel".
Definition literalForm : string := "http://www.w3.org/2008/05/skos-xl#literalForm".
End SKOS_XL.

Definition AGROVOC_ConceptSchemeURI : string := "http://aims.fao.org/aos/agrovoc".

Definition SUPPORTED_LANGUAGES : list string := ["fr"; "de"; "en"; "it"; "es"].

(** ** Functions the two files share, word for word *)

(** [__apply_lower_case__(value, lower_case)] on a [str]. *)
Definition __apply_lower_case__ (value : string) (lower_case : bool) : string :=
  if lower_case then lower value else value.

(** The same function on [pref_label.language], which is [None] for an
    untagged literal: [None.lower()] raises [AttributeError]. *)
Definition __apply_lower_case__opt (value : option string) (lower_case : bool)
  : result (option string) :=
  if lower_case then
    match value with
    | Some v => inr (Some (lower v))
    | None => inl AttributeError
    end
  else inr value.

(** The sort key of [value_for_language]. *)
Definition lang_key (literal : Literal) : string :=
  match language literal with
  | None => ""
  | Some l => l
  end.

(** The [for item in sorted_lang] loop with its two [return]s; [None] when
    the loop runs to its end. *)
Fixpoint scan_sorted_lang (sorted_lang : list Literal) (default_lang : string)
  : option string :=
  match sorted_lang with
  | [] => None
  | item :: rest =>
      match language item with
      | None => Some (lexical item)
      | Some tag =>
          if String.eqb (split_hyphen_0 tag) default_lang then Some (lexical item)
          else scan_sorted_lang rest default_lang
      end
  end.

Definition value_for_language (available : list Literal) (default_lang : string)
  : result string :=
  let sorted_lang := sorted lang_key available in
  match scan_sorted_lang sorted_lang default_lang with
  | Some s => inr s
  | None =>
      match available with
      | first :: _ => inr (lexical first)
      | [] => inl IndexError
      end
  end.

(** ** The persistence sink and the output streams *)

(** The three Django models, with the fields the loaders set. *)
Module Thesaurus.
Record t : Type := mk {
  identifier : string;
  title : string;
  description : string;
  about : string;
  date : string
}.
End Thesaurus.

Module ThesaurusKeyword.
Record t : Type := mk {
  thesaurus : Thesaurus.t;
  about : string;
  alt_label : string
}.
End ThesaurusKeyword.

Module ThesaurusKeywordLabel.
Record t : Type := mk {
  keyword : ThesaurusKeyword.t;
  lang : string;
  label : string
}.
End ThesaurusKeywordLabel.

Inductive Row : Type :=
| RThesaurus (t : Thesaurus.t)
| RKeyword (tk : ThesaurusKeyword.t)
| RLabel (tkl : ThesaurusKeywordLabel.t).

Inductive Style : Type := SUCCESS | WARNING | ERROR.

(** A line written with [self.stderr.write(self.style.X(...))], or with
    [print]. *)
Inductive Output : Type :=
| Stderr (style : Style) (msg : string)
| Stdout (msg : string).

(** What a run leaves behind: the rows the sink took ([db]), every [save()]
    that was called, taken or not ([saves]), and the lines written ([out]),
    each oldest first. *)
Record World : Type := mkWorld {
  db : list Row;
  saves : list Row;
  out : list Output
}.

(** The sink is an external collaborator: [accepts rows r] tells whether it
    takes [r] once it holds [rows]; a refused [save()] raises and leaves the
    sink as it was. *)
Definition Sink : Type := list Row -> Row -> bool.

(** State and exceptions: a raised exception keeps the effects that came
    before it. *)
Definition M (A : Type) : Type := World -> World * result A.

Definition ret {A} (a : A) : M A := fun w => (w, inr a).

Definition raise {A} (e : Exc) : M A := fun w => (w, inl e).

Definition bind {A B} (m : M A) (k : A -> M B) : M B :=
  fun w =>
    match m w with
    | (w', inr a) => k a w'
    | (w', inl e) => (w', inl e)
    end.

Declare Scope py_scope.
Delimit Scope py_scope with py.
Notation "x <- m ;; k" := (bind m (fun x => k))
  (at level 61, m at next level, right associativity) : py_scope.
Notation "m ;; k" := (bind m (fun _ => k))
  (at level 61, right associativity) : py_scope.
Open Scope py_scope.

(** A pure computation that may raise, run inside [M]. *)
Definition lift {A} (r : result A) : M A := fun w => (w, r).

(** [try: body / except: handler], the bare [except] of both files. *)
Definition try_except (body : M unit) (handler : M unit) : M unit :=
  fun w =>
    match body w with
    | (w', inr a) => (w', inr a)
    | (w', inl _) => handler w'
    end.

Definition stderr_write (style : Style) (msg : string) : M unit :=
  fun w => (mkWorld (db w) (saves w) (out w ++ [Stderr style msg]), inr tt).

Definition print (msg : string) : M unit :=
  fun w => (mkWorld (db w) (saves w) (out w ++ [Stdout msg]), inr tt).

(** [row.save()]. *)
Definition save (accepts : Sink) (row : Row) : M unit :=
  fun w =>
    if accepts (db w) row
    then (mkWorld (db w ++ [row]) (saves w ++ [row]) (out w), inr tt)
    else (mkWorld (db w) (saves w ++ [row]) (out w), inl IntegrityError).

(** [if store: row.save()]. *)
Definition save_if (store : bool) (accepts : Sink) (row : Row) : M unit :=
  if store then save accepts row else ret tt.

(** [for x in l: body(x)]; a [continue] is a body that returns early. *)
Fixpoint for_each {A} (l : list A) (body : A -> M unit) : M unit :=
  match l with
  | [] => ret tt
  | x :: rest => body x ;; for_each rest body
  end.

Definition dquote : string := String (ascii_of_nat 34) EmptyString.

(** [str(i)] of a non-negative [int]. *)
Definition str_int (i : nat) : string := NilEmpty.string_of_uint (Nat.to_uint i).

(** [lang in SUPPORTED_LANGUAGES] for a [lang] that is a [str]; [None] is
    in no list of strings. *)
Definition supported (lang : string) : bool :=
  existsb (String.eqb lang) SUPPORTED_LANGUAGES.

Definition option_string_eqb (a b : option string) : bool :=
  match a, b with
  | None, None => true
  | Some x, Some y => String.eqb x y
  | _, _ => false
  end.

(** ** load_agrovoc_thesaurus.py *)

(** [value.replace(tzinfo=None).isoformat()] on what [toPython()] returned. *)
Definition replace_tzinfo_isoformat (value : option PyValue) : result string :=
  match value with
  | Some (PyDatetime isoformat) => inr isoformat
  | Some (PyTime isoformat) => inr isoformat
  | Some PyDate => inl TypeError
  | Some PyStr => inl TypeError
  | Some PyNoReplace => inl AttributeError
  | None => inl TypeError
  end.

Module Agrovoc.

(** The loop of [get_default_language_preflabel] over
    [g.objects(concept, SKOS_XL.prefLabel)]. *)
Fixpoint get_default_language_preflabel_loop
  (g : Graph) (labels : list Term) (default_lang : string) : option string :=
  match labels with
  | [] => None
  | label :: rest =>
      let pref_label := Literal_of (value g label SKOS_XL.literalForm) in
      let language := language pref_label in
      if option_string_eqb language (Some default_lang)
      then Some (lexical pref_label)
      else get_default_language_preflabel_loop g rest default_lang
  end.

Definition get_default_language_preflabel
  (g : Graph) (concept : string) (default_lang : string) : option string :=
  get_default_language_preflabel_loop g
    (objects g (TNode concept) (Some SKOS_XL.prefLabel)) default_lang.

(** The default of [--description]. *)
Definition default_description : string :=
  "
            AGROVOC is a multilingual and controlled vocabulary designed to cover concepts and terminology under FAO's areas of interest. 
            ".

(** The parsed command line; [file] and [name] have no default. *)
Record Options : Type := mkOptions {
  file : option string;
  name : option string;
  dryrun : bool;
  title : string;
  description : string;
  lower_case : bool;
  default_lang : string
}.

(** The options of a command line that gives [--file] and [--name] only;
    [DEFAULT_LANG] is the configured [THESAURUS_DEFAULT_LANG]. *)
Definition default_options (DEFAULT_LANG file name : string) : Options :=
  mkOptions (Some file) (Some name) false "AGROVOC" default_description false DEFAULT_LANG.

Section Load.
Variable accepts : Sink.
(** What [g.parse(input_file)] built. *)
Variable g : Graph.

(** [Literal(g.value(AGROVOC_ConceptSchemeURI, DCTERMS.modified, None,
    default="")).toPython()] and then [.replace(tzinfo=None).isoformat()]. *)
Definition thesaurus_date : result string :=
  let modified :=
    match value g (TNode AGROVOC_ConceptSchemeURI) DCTERMS_modified with
    | Some t => Literal_of (Some t)
    | None => mkLiteral "" None None
    end in
  replace_tzinfo_isoformat (toPython modified).

(** The body of [for pref_label_element in g.objects(concept,
    SKOS_XL.prefLabel)]; it returns the new [i]. *)
Definition label_step (store lower_case : bool) (tk : ThesaurusKeyword.t)
  (pref_label_element : Term) (i : nat) : M nat :=
  let pref_label := Literal_of (value g pref_label_element SKOS_XL.literalForm) in
  lang <- lift (__apply_lower_case__opt (language pref_label) lower_case) ;;
  match lang with
  | None => ret i
  | Some lang =>
      if negb (supported lang) then ret i
      else
        let label := __apply_lower_case__ (lexical pref_label) lower_case in
        let tkl :=
          {| ThesaurusKeywordLabel.keyword := tk;
             ThesaurusKeywordLabel.lang := lang;
             ThesaurusKeywordLabel.label := label |} in
        let i := S i in
        (if store then
           try_except (save accepts (RLabel tkl))
             (stderr_write ERROR
                ("could not add label: " ++ label ++ " with language: " ++ lang
                 ++ ") to database, skipping entry ..."))
         else ret tt) ;;
        ret i
  end.

Fixpoint label_loop (store lower_case : bool) (tk : ThesaurusKeyword.t)
  (elements : list Term) (i : nat) : M nat :=
  match elements with
  | [] => ret i
  | e :: rest =>
      i' <- label_step store lower_case tk e i ;;
      label_loop store lower_case tk rest i'
  end.

(** The body of [for concept in g.subjects(SKOS.inScheme,
    AGROVOC_ConceptSchemeURI)]. *)
Definition concept_step (thesaurus : Thesaurus.t) (store : bool)
  (defaultlang : string) (lower_case : bool) (concept : string) : M unit :=
  let about := __apply_lower_case__ concept lower_case in
  match get_default_language_preflabel g concept defaultlang with
  | None => ret tt
  | Some alt_label =>
      (* from here on [alt_label] is a [str]; the test below is the
         source's second [if alt_label is None] *)
      let alt_label : option string :=
        Some (__apply_lower_case__ alt_label lower_case) in
      match alt_label with
      | None =>
          stderr_write ERROR
            ("could not find preflabel for concept (" ++ concept
             ++ ") in THESAURUS_DEFAULT_LANG(" ++ defaultlang
             ++ "), skipping entry ...")
      | Some alt_label =>
          let tk :=
            {| ThesaurusKeyword.thesaurus := thesaurus;
               ThesaurusKeyword.about := about;
               ThesaurusKeyword.alt_label := alt_label |} in
          save_if store accepts (RKeyword tk) ;;
          i <- label_loop store lower_case tk
                 (objects g (TNode concept) (Some SKOS_XL.prefLabel)) 0 ;;
          stderr_write SUCCESS
            (" set alt_label: " ++ alt_label ++ ": (" ++ str_int i ++ ")")
      end
  end.

Definition load_thesaurus (input_file name : string) (store : bool)
  (title description defaultlang : string) (lower_case : bool) : M unit :=
  stderr_write SUCCESS ("Starting to parsed file: " ++ input_file ++ " ...") ;;
  stderr_write SUCCESS ("Successful parsed file: " ++ input_file ++ " ...") ;;
  thesaurus_date <- lift thesaurus_date ;;
  scheme <- lift (value_subject_unique g RDF_type (TNode SKOS_ConceptScheme)) ;;
  match scheme with
  | None => raise (CommandError "ConceptScheme not found in file")
  | Some scheme =>
      let available_titles := literals_only (objects g (TNode scheme) None) in
      thesaurus_title <- lift (value_for_language available_titles defaultlang) ;;
      let description :=
        match value g (TNode scheme) DC_description with
        | Some d => term_str d
        | None => thesaurus_title
        end in
      let thesaurus :=
        {| Thesaurus.identifier := name;
           Thesaurus.description := description;
           Thesaurus.title := thesaurus_title;
           Thesaurus.about := scheme;
           Thesaurus.date := thesaurus_date |} in
      save_if store accepts (RThesaurus thesaurus) ;;
      stderr_write SUCCESS
        ("Thesaurus " ++ dquote ++ title ++ dquote ++ ", desc: " ++ description
         ++ " issued at " ++ thesaurus_date) ;;
      for_each (subjects g SKOS_inScheme (TNode AGROVOC_ConceptSchemeURI))
        (concept_step thesaurus store defaultlang lower_case)
  end.

(** [if not x] for an option that is [None] or a [str]. *)
Definition handle (options : Options) : M unit :=
  match file options with
  | None | Some "" => raise (CommandError "Missing thesaurus rdf file path (--file)")
  | Some input_file =>
      match name options with
      | None | Some "" =>
          raise (CommandError "Missing identifier name for the thesaurus (--name)")
      | Some name =>
          load_thesaurus input_file name (negb (dryrun options)) (title options)
            (description options) (default_lang options) (lower_case options)
      end
  end.
End Load.

End Agrovoc.

(** ** load_gemet_thesaurus.py *)

Module Gemet.

(** [l_.language]: a node has no such attribute. *)
Definition term_language (l_ : Term) : result (option string) :=
  match l_ with
  | TLit l => inr (language l)
  | TNode _ => inl AttributeError
  end.

(** The three [langfilter]s of [preferredLabel], chosen by [lang]. *)
Definition langfilter (lang : option string) (l_ : Term) : result bool :=
  match lang with
  | Some lang =>
      if String.eqb lang ""
      then match term_language l_ with
           | inr tag => inr (option_string_eqb tag None)
           | inl e => inl e
           end
      else match term_language l_ with
           | inr tag => inr (option_string_eqb tag (Some lang))
           | inl e => inl e
           end
  | None => inr true
  end.

(** [list(filter(f, l))] for an [f] that may raise. *)
Fixpoint py_filter {A} (f : A -> result bool) (l : list A) : result (list A) :=
  match l with
  | [] => inr []
  | x :: rest =>
      match f x with
      | inl e => inl e
      | inr b =>
          match py_filter f rest with
          | inl e => inl e
          | inr kept => inr (if b then x :: kept else kept)
          end
      end
  end.

Definition default_label_properties : list string := [SKOS_prefLabel; RDFS_label].

(** The [for labelProp in label_properties] loop. *)
Fixpoint preferredLabel_loop (g : Graph) (subject : string) (lang : option string)
  (default : list (string * Term)) (label_properties : list string)
  : result (list (string * Term)) :=
  match label_properties with
  | [] => inr default
  | labelProp :: rest =>
      match py_filter (langfilter lang) (objects g (TNode subject) (Some labelProp)) with
      | inl e => inl e
      | inr [] => preferredLabel_loop g subject lang default rest
      | inr labels => inr (map (fun l_ => (labelProp, l_)) labels)
      end
  end.

Definition preferredLabel (g : Graph) (subject : string) (lang : option string)
  (default : option (list (string * Term))) (label_properties : list string)
  : result (list (string * Term)) :=
  let default := match default with None => [] | Some d => d end in
  preferredLabel_loop g subject lang default label_properties.

Record Options : Type := mkOptions {
  file : option string;
  name : option string;
  dryrun : bool;
  lower_case : bool;
  default_lang : string
}.

Section Load.
Variable accepts : Sink.
(** What [g.parse(input_file)] built. *)
Variable g : Graph.

(** [__apply_lower_case__(preferredLabel(g, concept, defaultlang)[0][1],
    lower_case)]. *)
Definition pref_of (concept defaultlang : string) (lower_case : bool)
  : result string :=
  match preferredLabel g concept (Some defaultlang) None default_label_properties with
  | inl e => inl e
  | inr [] => inl IndexError
  | inr ((_, l_) :: _) => inr (__apply_lower_case__ (term_str l_) lower_case)
  end.

(** The body of [for _, pref_label in preferredLabel(g, concept)]. *)
Definition label_step (store lower_case : bool) (tk : ThesaurusKeyword.t)
  (pref_label : Term) : M unit :=
  tag <- lift (term_language pref_label) ;;
  lang <- lift (__apply_lower_case__opt tag lower_case) ;;
  let label := __apply_lower_case__ (term_str pref_label) lower_case in
  match lang with
  | None => ret tt
  | Some lang =>
      if supported lang then
        stderr_write SUCCESS ("  Label " ++ lang ++ ": " ++ label) ;;
        let tkl :=
          {| ThesaurusKeywordLabel.keyword := tk;
             ThesaurusKeywordLabel.lang := lang;
             ThesaurusKeywordLabel.label := label |} in
        save_if store accepts (RLabel tkl)
      else ret tt
  end.

(** The body of [for concept in g.subjects(RDF.type, SKOS.Concept)].  The
    first [except] builds its message and drops it. *)
Definition concept_step (thesaurus : Thesaurus.t) (store : bool)
  (defaultlang : string) (lower_case : bool) (concept : string) : M unit :=
  match pref_of concept defaultlang lower_case with
  | inl _ => ret tt
  | inr pref =>
      let about := __apply_lower_case__ concept lower_case in
      stderr_write SUCCESS ("Concept: " ++ pref ++ " (" ++ about ++ ")") ;;
      let tk :=
        {| ThesaurusKeyword.thesaurus := thesaurus;
           ThesaurusKeyword.about := about;
           ThesaurusKeyword.alt_label := pref |} in
      try_except
        (save_if store accepts (RKeyword tk) ;;
         labels <- lift (preferredLabel g concept None None default_label_properties) ;;
         for_each (map snd labels) (label_step store lower_case tk))
        (print ("could not save: " ++ pref ++ ", duplicate ..."))
  end.

Definition load_thesaurus (input_file name defaultlang : string)
  (store lower_case : bool) : M unit :=
  stderr_write SUCCESS (" using defaultlang: " ++ defaultlang ++ " ...") ;;
  scheme <- lift (value_subject_unique g RDF_type (TNode SKOS_ConceptScheme)) ;;
  match scheme with
  | None => raise (CommandError "ConceptScheme not found in file")
  | Some scheme =>
      let available_titles := literals_only (objects g (TNode scheme) None) in
      thesaurus_title <- lift (value_for_language available_titles defaultlang) ;;
      let description :=
        match value g (TNode scheme) DC_description with
        | Some d => term_str d
        | None => thesaurus_title
        end in
      let date_issued :=
        match value g (TNode scheme) DCTERMS_issued with
        | Some d => term_str d
        | None => "2024-01-01"
        end in
      stderr_write SUCCESS
        ("Thesaurus " ++ dquote ++ thesaurus_title ++ dquote ++ ", desc: "
         ++ description ++ " issued at " ++ date_issued) ;;
      let thesaurus :=
        {| Thesaurus.identifier := name;
           Thesaurus.description := description;
           Thesaurus.title := thesaurus_title;
           Thesaurus.about := scheme;
           Thesaurus.date := date_issued |} in
      save_if store accepts (RThesaurus thesaurus) ;;
      for_each (subjects g RDF_type (TNode SKOS_Concept))
        (concept_step thesaurus store defaultlang lower_case)
  end.

Definition handle (options : Options) : M unit :=
  match file options with
  | None | Some "" => raise (CommandError "Missing thesaurus rdf file path (--file)")
  | Some input_file =>
      match name options with
      | None | Some "" =>
          raise (CommandError "Missing identifier name for the thesaurus (--name)")
      | Some name =>
          load_thesaurus input_file name (default_lang options)
            (negb (dryrun options)) (lower_case options)
      end
  end.
End Load.

End Gemet.

(** A fresh sink and empty streams. *)
Definition empty_world : World := mkWorld [] [] [].

(** A sink that takes every row. *)
Definition accept_all : Sink := fun _ _ => true.

(** ** Vocabulary of the properties *)

(** The literal is one the selector stops at: it has no tag, or the primary
    subtag of its tag is the target language. *)
Definition selects (default_lang : string) (item : Literal) : Prop :=
  language item = None
  \/ exists tag, language item = Some tag /\ split_hyphen_0 tag = default_lang.

(** The literal form [get_default_language_preflabel] reads off a
    [skos-xl:prefLabel] target. *)
Definition literal_form (g : Graph) (target : Term) : Literal :=
  Literal_of (value g target SKOS_XL.literalForm).

(** The language filter of [preferredLabel] on a literal: every literal
    without a filter, the untagged ones for [""], else the ones with that very
    tag. *)
Definition passes (lang : option string) (l : Literal) : bool :=
  match lang with
  | None => true
  | Some lang =>
      if String.eqb lang "" then option_string_eqb (language l) None
      else option_string_eqb (language l) (Some lang)
  end.

(** A subject with a German [skos:prefLabel] and an English [rdfs:label]. *)
Definition haus_graph : Graph :=
  [mkTriple "c" SKOS_prefLabel (TLit (mkLiteral "Haus" (Some "de") None));
   mkTriple "c" RDFS_label (TLit (mkLiteral "House" (Some "en") None))].

(** The sink and the streams only grow.  [extends P l l'] says that [l']
    is [l] followed by elements that satisfy [P]. *)
Definition extends {X} (P : X -> Prop) (l l' : list X) : Prop :=
  exists added, l' = (l ++ added)%list /\ Forall P added.

Definition grows (P : Row -> Prop) (Q : Output -> Prop) (w w' : World) : Prop :=
  extends P (db w) (db w') /\ extends P (saves w) (saves w') /\ extends Q (out w) (out w').

(** [m] submits and persists rows of [P] only and writes lines of [Q] only,
    whether it returns or raises. *)
Definition only_adds {A} (P : Row -> Prop) (Q : Output -> Prop) (m : M A) : Prop :=
  forall w, grows P Q w (fst (m w)).

(** The one [Thesaurus] row of a graph: every field is read off the graph or
    the command line as it is. *)
Definition agrovoc_thesaurus (g : Graph) (name defaultlang : string)
  (t : Thesaurus.t) : Prop :=
  exists scheme title date,
    value_subject_unique g RDF_type (TNode SKOS_ConceptScheme) = inr (Some scheme)
    /\ value_for_language (literals_only (objects g (TNode scheme) None)) defaultlang
       = inr title
    /\ Agrovoc.thesaurus_date g = inr date
    /\ t = {| Thesaurus.identifier := name;
              Thesaurus.title := title;
              Thesaurus.description :=
                match value g (TNode scheme) DC_description with
                | Some d => term_str d
                | None => title
                end;
              Thesaurus.about := scheme;
              Thesaurus.date := date |}.

(** The [ThesaurusKeyword] row of [concept]. *)
Definition agrovoc_keyword (g : Graph) (name defaultlang : string) (lower_case : bool)
  (concept : string) (tk : ThesaurusKeyword.t) : Prop :=
  agrovoc_thesaurus g name defaultlang (ThesaurusKeyword.thesaurus tk)
  /\ In concept (subjects g SKOS_inScheme (TNode AGROVOC_ConceptSchemeURI))
  /\ exists alt_label,
       Agrovoc.get_default_language_preflabel g concept defaultlang = Some alt_label
       /\ ThesaurusKeyword.about tk = __apply_lower_case__ concept lower_case
       /\ ThesaurusKeyword.alt_label tk = __apply_lower_case__ alt_label lower_case.

(** A [ThesaurusKeywordLabel] row: it comes from the literal form of a
    [skos-xl:prefLabel] target of its concept, whose tag, once folded when
    folding is on, is a supported language. *)
Definition agrovoc_label (g : Graph) (name defaultlang : string) (lower_case : bool)
  (tkl : ThesaurusKeywordLabel.t) : Prop :=
  exists concept target tag,
    agrovoc_keyword g name defaultlang lower_case concept (ThesaurusKeywordLabel.keyword tkl)
    /\ In target (objects g (TNode concept) (Some SKOS_XL.prefLabel))
    /\ language (literal_form g target) = Some tag
    /\ ThesaurusKeywordLabel.lang tkl = __apply_lower_case__ tag lower_case
    /\ supported (ThesaurusKeywordLabel.lang tkl) = true
    /\ ThesaurusKeywordLabel.label tkl
       = __apply_lower_case__ (lexical (literal_form g target)) lower_case.

Definition agrovoc_row (store : bool) (g : Graph) (name defaultlang : string)
  (lower_case : bool) (row : Row) : Prop :=
  store = true
  /\ match row with
     | RThesaurus t => agrovoc_thesaurus g name defaultlang t
     | RKeyword tk => exists concept, agrovoc_keyword g name defaultlang lower_case concept tk
     | RLabel tkl => agrovoc_label g name defaultlang lower_case tkl
     end.

(** The lines of the AGROVOC loader: progress, and an error for a refused
    label. *)
Definition agrovoc_line (store : bool) (o : Output) : Prop :=
  match o with
  | Stderr SUCCESS _ => True
  | Stderr ERROR msg =>
      store = true
      /\ exists label lang,
           msg = "could not add label: " ++ label ++ " with language: " ++ lang
                 ++ ") to database, skipping entry ..."
  | _ => False
  end.

Definition gemet_thesaurus (g : Graph) (name defaultlang : string)
  (t : Thesaurus.t) : Prop :=
  exists scheme title,
    value_subject_unique g RDF_type (TNode SKOS_ConceptScheme) = inr (Some scheme)
    /\ value_for_language (literals_only (objects g (TNode scheme) None)) defaultlang
       = inr title
    /\ t = {| Thesaurus.identifier := name;
              Thesaurus.title := title;
              Thesaurus.description :=
                match value g (TNode scheme) DC_description with
                | Some d => term_str d
                | None => title
                end;
              Thesaurus.about := scheme;
              Thesaurus.date :=
                match value g (TNode scheme) DCTERMS_issued with
                | Some d => term_str d
                | None => "2024-01-01"
                end |}.

Definition gemet_keyword (g : Graph) (name defaultlang : string) (lower_case : bool)
  (concept : string) (tk : ThesaurusKeyword.t) : Prop :=
  gemet_thesaurus g name defaultlang (ThesaurusKeyword.thesaurus tk)
  /\ In concept (subjects g RDF_type (TNode SKOS_Concept))
  /\ exists labelProp l_ rest,
       Gemet.preferredLabel g concept (Some defaultlang) None Gemet.default_label_properties
       = inr ((labelProp, l_) :: rest)
       /\ ThesaurusKeyword.about tk = __apply_lower_case__ concept lower_case
       /\ ThesaurusKeyword.alt_label tk = __apply_lower_case__ (term_str l_) lower_case.

Definition gemet_label (g : Graph) (name defaultlang : string) (lower_case : bool)
  (tkl : ThesaurusKeywordLabel.t) : Prop :=
  exists concept labels labelProp l tag,
    gemet_keyword g name defaultlang lower_case concept (ThesaurusKeywordLabel.keyword tkl)
    /\ Gemet.preferredLabel g concept None None Gemet.default_label_properties = inr labels
    /\ In (labelProp, TLit l) labels
    /\ language l = Some tag
    /\ ThesaurusKeywordLabel.lang tkl = __apply_lower_case__ tag lower_case
    /\ supported (ThesaurusKeywordLabel.lang tkl) = true
    /\ ThesaurusKeywordLabel.label tkl = __apply_lower_case__ (lexical l) lower_case.

Definition gemet_row (store : bool) (g : Graph) (name defaultlang : string)
  (lower_case : bool) (row : Row) : Prop :=
  store = true
  /\ match row with
     | RThesaurus t => gemet_thesaurus g name defaultlang t
     | RKeyword tk => exists concept, gemet_keyword g name defaultlang lower_case concept tk
     | RLabel tkl => gemet_label g name defaultlang lower_case tkl
     end.

(** The lines of the GEMET loader: progress on the error stream, and a
    printed notice for a concept whose saving failed. *)
Definition gemet_line (o : Output) : Prop :=
  match o with
  | Stderr SUCCESS _ => True
  | Stdout msg => exists pref, msg = "could not save: " ++ pref ++ ", duplicate ..."
  | _ => False
  end.

(** [sim R m1 m2]: from worlds related by [R], [m1] and [m2] end in worlds
    related by [R], with the same outcome. *)
Definition sim {A} (R : World -> World -> Prop) (m1 m2 : M A) : Prop :=
  forall w1 w2, R w1 w2 ->
    R (fst (m1 w1)) (fst (m2 w2)) /\ snd (m1 w1) = snd (m2 w2).

(** The two runs have written the same lines. *)
Definition same_out (w1 w2 : World) : Prop := out w1 = out w2.

(** An AGROVOC file: the scheme with its modification date and title, and
    three concepts.  [c_soil] has an English label and one tagged ["DE"],
    [c_water] has a German label only, [c_tree] an English and a French
    one. *)
Definition agrovoc_sample : Graph :=
  [mkTriple AGROVOC_ConceptSchemeURI RDF_type (TNode SKOS_ConceptScheme);
   mkTriple AGROVOC_ConceptSchemeURI RDFS_label (TLit (mkLiteral "AGROVOC" (Some "en") None));
   mkTriple AGROVOC_ConceptSchemeURI DCTERMS_modified
     (TLit (mkLiteral "2022-04-04T13:50:00Z" None (Some (PyDatetime "2022-04-04T13:50:00"))));
   mkTriple "http://aims.fao.org/aos/agrovoc/c_Soil" SKOS_inScheme (TNode AGROVOC_ConceptSchemeURI);
   mkTriple "http://aims.fao.org/aos/agrovoc/c_Soil" SKOS_XL.prefLabel (TNode "xl_en_soil");
   mkTriple "xl_en_soil" SKOS_XL.literalForm (TLit (mkLiteral "Soil" (Some "en") None));
   mkTriple "http://aims.fao.org/aos/agrovoc/c_Soil" SKOS_XL.prefLabel (TNode "xl_de_soil");
   mkTriple "xl_de_soil" SKOS_XL.literalForm (TLit (mkLiteral "Boden" (Some "DE") None));
   mkTriple "http://aims.fao.org/aos/agrovoc/c_Water" SKOS_inScheme (TNode AGROVOC_ConceptSchemeURI);
   mkTriple "http://aims.fao.org/aos/agrovoc/c_Water" SKOS_XL.prefLabel (TNode "xl_de_water");
   mkTriple "xl_de_water" SKOS_XL.literalForm (TLit (mkLiteral "Wasser" (Some "de") None));
   mkTriple "http://aims.fao.org/aos/agrovoc/c_Tree" SKOS_inScheme (TNode AGROVOC_ConceptSchemeURI);
   mkTriple "http://aims.fao.org/aos/agrovoc/c_Tree" SKOS_XL.prefLabel (TNode "xl_en_tree");
   mkTriple "xl_en_tree" SKOS_XL.literalForm (TLit (mkLiteral "Tree" (Some "en") None));
   mkTriple "http://aims.fao.org/aos/agrovoc/c_Tree" SKOS_XL.prefLabel (TNode "xl_fr_tree");
   mkTriple "xl_fr_tree" SKOS_XL.literalForm (TLit (mkLiteral "Arbre" (Some "fr") None))].

(** The same vocabulary as a plain SKOS file. *)
Definition gemet_sample : Graph :=
  [mkTriple "http://example.org/scheme" RDF_type (TNode SKOS_ConceptScheme);
   mkTriple "http://example.org/scheme" RDFS_label (TLit (mkLiteral "Sample" (Some "en") None));
   mkTriple "http://example.org/c_Soil" RDF_type (TNode SKOS_Concept);
   mkTriple "http://example.org/c_Soil" SKOS_prefLabel (TLit (mkLiteral "Soil" (Some "en") None));
   mkTriple "http://example.org/c_Soil" SKOS_prefLabel (TLit (mkLiteral "Boden" (Some "DE") None));
   mkTriple "http://example.org/c_Water" RDF_type (TNode SKOS_Concept);
   mkTriple "http://example.org/c_Water" SKOS_prefLabel (TLit (mkLiteral "Wasser" (Some "de") None));
   mkTriple "http://example.org/c_Tree" RDF_type (TNode SKOS_Concept);
   mkTriple "http://example.org/c_Tree" SKOS_prefLabel (TLit (mkLiteral "Tree" (Some "en") None));
   mkTriple "http://example.org/c_Tree" SKOS_prefLabel (TLit (mkLiteral "Arbre" (Some "fr") None))].

(** A sink that refuses the label rows of one language, as it would when it
    holds them already. *)
Definition refuse_label_lang (lang : string) : Sink :=
  fun _ row =>
    match row with
    | RLabel tkl => negb (String.eqb (ThesaurusKeywordLabel.lang tkl) lang)
    | _ => true
    end.

(** A sink that refuses the keyword row of one concept. *)
Definition refuse_keyword_about (about : string) : Sink :=
  fun _ row =>
    match row with
    | RKeyword tk => negb (String.eqb (ThesaurusKeyword.about tk) about)
    | _ => true
    end.

(** The label rows a run submitted, as (concept [about], language) pairs. *)
Fixpoint selected_pairs (rows : list Row) : list (string * string) :=
  match rows with
  | [] => []
  | RLabel tkl :: rest =>
      (ThesaurusKeyword.about (ThesaurusKeywordLabel.keyword tkl),
       ThesaurusKeywordLabel.lang tkl) :: selected_pairs rest
  | _ :: rest => selected_pairs rest
  end.

(** The AGROVOC command on the sample, storing, default language ["en"]. *)
Definition agrovoc_run (accepts : Sink) (lower_case : bool) : World * result unit :=
  Agrovoc.load_thesaurus accepts agrovoc_sample "agrovoc.rdf" "agrovoc" true "AGROVOC"
    "my description" "en" lower_case empty_world.

(** The GEMET command on the sample, storing, default language ["en"]. *)
Definition gemet_run (accepts : Sink) (lower_case : bool) : World * result unit :=
  Gemet.load_thesaurus accepts gemet_sample "gemet.rdf" "gemet" "en" true lower_case
    empty_world.

(** The label rows that a folding run makes of ["Boden"@DE]. *)
Definition agrovoc_boden_row : Row :=
  RLabel
    {| ThesaurusKeywordLabel.keyword :=
         {| ThesaurusKeyword.thesaurus :=
              {| Thesaurus.identifier := "agrovoc";
                 Thesaurus.title := "2022-04-04T13:50:00Z";
                 Thesaurus.description := "2022-04-04T13:50:00Z";
                 Thesaurus.about := "http://aims.fao.org/aos/agrovoc";
                 Thesaurus.date := "2022-04-04T13:50:00" |};
            ThesaurusKeyword.about := "http://aims.fao.org/aos/agrovoc/c_soil";
            ThesaurusKeyword.alt_label := "soil" |};
       ThesaurusKeywordLabel.lang := "de";
       ThesaurusKeywordLabel.label := "boden" |}.

Definition gemet_boden_row : Row :=
  RLabel
    {| ThesaurusKeywordLabel.keyword :=
         {| ThesaurusKeyword.thesaurus :=
              {| Thesaurus.identifier := "gemet";
                 Thesaurus.title := "Sample";
                 Thesaurus.description := "Sample";
                 Thesaurus.about := "http://example.org/scheme";
                 Thesaurus.date := "2024-01-01" |};
            ThesaurusKeyword.about := "http://example.org/c_soil";
            ThesaurusKeyword.alt_label := "soil" |};
       ThesaurusKeywordLabel.lang := "de";
       ThesaurusKeywordLabel.label := "boden" |}.

Definition is_keyword (r : Row) : bool :=
  match r with
  | RKeyword _ => true
  | _ => false
  end.

(** The keyword rows among the rows submitted. *)
Definition keyword_rows (rows : list Row) : list Row := filter is_keyword rows.

Definition is_notice (o : Output) : bool :=
  match o with
  | Stdout _ => true
  | _ => false
  end.

Definition is_error (o : Output) : bool :=
  match o with
  | Stderr ERROR _ => true
  | _ => false
  end.

(** The notices printed and the errors written so far. *)
Definition notices (w : World) : nat := length (filter is_notice (out w)).
Definition errors (w : World) : nat := length (filter is_error (out w)).

(** The keyword row the GEMET loader submits for a concept, if any. *)
Definition gemet_expected_keyword (g : Graph) (thesaurus : Thesaurus.t) (store : bool)
  (defaultlang : string) (lower_case : bool) (concept : string) : list Row :=
  match Gemet.pref_of g concept defaultlang lower_case with
  | inr pref =>
      if store then
        [RKeyword {| ThesaurusKeyword.thesaurus := thesaurus;
                     ThesaurusKeyword.about := __apply_lower_case__ concept lower_case;
                     ThesaurusKeyword.alt_label := pref |}]
      else []
  | inl _ => []
  end.

(** The two runs have called [save()] on the same rows. *)
Definition same_saves (w1 w2 : World) : Prop := saves w1 = saves w2.

(** Every [save()] so far was taken or has its error line. *)
Definition balanced (w : World) : Prop :=
  length (saves w) = length (db w) + errors w.

(** One run, looked at twice: the relation keeps the two worlds equal and
    [balanced]. *)
Definition both_balanced (w1 w2 : World) : Prop := w1 = w2 /\ balanced w1.








(** A file both loaders read: one concept with its labels in the SKOS-XL
    and in the plain form, none of them a supported language in upper
    case. *)
Definition plain_sample : Graph :=
  [mkTriple AGROVOC_ConceptSchemeURI RDF_type (TNode SKOS_ConceptScheme);
   mkTriple AGROVOC_ConceptSchemeURI RDFS_label (TLit (mkLiteral "AGROVOC" (Some "en") None));
   mkTriple AGROVOC_ConceptSchemeURI DCTERMS_modified
     (TLit (mkLiteral "2022-04-04T13:50:00Z" None (Some (PyDatetime "2022-04-04T13:50:00"))));
   mkTriple "http://aims.fao.org/aos/agrovoc/c_Tree" SKOS_inScheme (TNode AGROVOC_ConceptSchemeURI);
   mkTriple "http://aims.fao.org/aos/agrovoc/c_Tree" RDF_type (TNode SKOS_Concept);
   mkTriple "http://aims.fao.org/aos/agrovoc/c_Tree" SKOS_XL.prefLabel (TNode "xl_en_tree");
   mkTriple "xl_en_tree" SKOS_XL.literalForm (TLit (mkLiteral "Tree" (Some "en") None));
   mkTriple "http://aims.fao.org/aos/agrovoc/c_Tree" SKOS_XL.prefLabel (TNode "xl_zh_tree");
   mkTriple "xl_zh_tree" SKOS_XL.literalForm (TLit (mkLiteral "Shu" (Some "zh-Hant") None));
   mkTriple "http://aims.fao.org/aos/agrovoc/c_Tree" SKOS_XL.prefLabel (TNode "xl_fr_tree");
   mkTriple "xl_fr_tree" SKOS_XL.literalForm (TLit (mkLiteral "Arbre" (Some "fr") None));
   mkTriple "http://aims.fao.org/aos/agrovoc/c_Tree" SKOS_prefLabel
     (TLit (mkLiteral "Tree" (Some "en") None));
   mkTriple "http://aims.fao.org/aos/agrovoc/c_Tree" SKOS_prefLabel
     (TLit (mkLiteral "Shu" (Some "zh-Hant") None));
   mkTriple "http://aims.fao.org/aos/agrovoc/c_Tree" SKOS_prefLabel
     (TLit (mkLiteral "Arbre" (Some "fr") None))].

(** Rows handed to the sink one after the other until it refuses one: the
    rows [save()] is called on (the refused one is the last of them), and
    the rows that are taken.  [d] is what the sink holds at the start. *)
Fixpoint submitted_until_refused (accepts : Sink) (d rows : list Row) : list Row :=
  match rows with
  | [] => []
  | r :: rest =>
      r :: (if accepts d r then submitted_until_refused accepts (d ++ [r]) rest else [])
  end.

Fixpoint persisted_until_refused (accepts : Sink) (d rows : list Row) : list Row :=
  match rows with
  | [] => []
  | r :: rest =>
      if accepts d r then r :: persisted_until_refused accepts (d ++ [r]) rest else []
  end.

(** The same for groups of rows, each group handed over until one of its
    rows is refused, the next group starting on what the sink holds then. *)
Fixpoint submitted_by_group (accepts : Sink) (d : list Row) (groups : list (list Row))
  : list Row :=
  match groups with
  | [] => []
  | rows :: rest =>
      (submitted_until_refused accepts d rows
       ++ submitted_by_group accepts (d ++ persisted_until_refused accepts d rows) rest)%list
  end.

Fixpoint persisted_by_group (accepts : Sink) (d : list Row) (groups : list (list Row))
  : list Row :=
  match groups with
  | [] => []
  | rows :: rest =>
      (persisted_until_refused accepts d rows
       ++ persisted_by_group accepts (d ++ persisted_until_refused accepts d rows) rest)%list
  end.

(** The label rows the GEMET loader builds for a keyword from the labels of
    its concept, in their order: one for each literal whose tag, folded when
    folding is on, is a supported language.  The rows end at a label whose
    tag cannot be read or folded (a node; an untagged literal under
    folding), for the exception ends the concept. *)
Fixpoint gemet_label_rows (lower_case : bool) (tk : ThesaurusKeyword.t)
  (labels : list Term) : list Row :=
  match labels with
  | [] => []
  | TNode _ :: _ => []
  | TLit l :: rest =>
      match language l with
      | None => if lower_case then [] else gemet_label_rows lower_case tk rest
      | Some tag =>
          if supported (__apply_lower_case__ tag lower_case)
          then RLabel {| ThesaurusKeywordLabel.keyword := tk;
                         ThesaurusKeywordLabel.lang := __apply_lower_case__ tag lower_case;
                         ThesaurusKeywordLabel.label :=
                           __apply_lower_case__ (lexical l) lower_case |}
               :: gemet_label_rows lower_case tk rest
          else gemet_label_rows lower_case tk rest
      end
  end.

(** The rows the GEMET loader builds for a concept: none when the concept
    has no label in the default language, else its keyword and then the
    label rows of what [preferredLabel(g, concept)] returns. *)
Definition gemet_concept_rows (g : Graph) (thesaurus : Thesaurus.t)
  (defaultlang : string) (lower_case : bool) (concept : string) : list Row :=
  match Gemet.pref_of g concept defaultlang lower_case with
  | inl _ => []
  | inr pref =>
      let tk := {| ThesaurusKeyword.thesaurus := thesaurus;
                   ThesaurusKeyword.about := __apply_lower_case__ concept lower_case;
                   ThesaurusKeyword.alt_label := pref |} in
      RKeyword tk
      :: match Gemet.preferredLabel g concept None None Gemet.default_label_properties with
         | inr labels => gemet_label_rows lower_case tk (map snd labels)
         | inl _ => []
         end
  end.

(** The thesaurus row and the keyword row of the GEMET loader on
    [plain_sample], named ["agrovoc"]. *)
Definition plain_thesaurus : Thesaurus.t :=
  {| Thesaurus.identifier := "agrovoc";
     Thesaurus.title := "2022-04-04T13:50:00Z";
     Thesaurus.description := "2022-04-04T13:50:00Z";
     Thesaurus.about := AGROVOC_ConceptSchemeURI;
     Thesaurus.date := "2024-01-01" |}.

Definition plain_keyword : ThesaurusKeyword.t :=
  {| ThesaurusKeyword.thesaurus := plain_thesaurus;
     ThesaurusKeyword.about := "http://aims.fao.org/aos/agrovoc/c_Tree";
     ThesaurusKeyword.alt_label := "Tree" |}.

(** ** Vocabulary of the further properties *)

(** The literal has no language tag. *)
Definition untagged (l : Literal) : bool :=
  match language l with
  | None => true
  | Some _ => false
  end.

(** The string holds a hyphen. *)
Fixpoint has_hyphen (s : string) : bool :=
  match s with
  | EmptyString => false
  | String c r => Ascii.eqb c "-" || has_hyphen r
  end.

(** A subject whose [skos:prefLabel] is a node, not a literal. *)
Definition node_label_graph : Graph :=
  [mkTriple "c" SKOS_prefLabel (TNode "http://example.org/label");
   mkTriple "c" RDFS_label (TLit (mkLiteral "House" (Some "en") None))].

(** [m] raises exceptions of [E] only. *)
Definition raises_only {A} (E : Exc -> Prop) (m : M A) : Prop :=
  forall w e, snd (m w) = inl e -> E e.

Definition is_label (r : Row) : bool :=
  match r with
  | RLabel _ => true
  | _ => false
  end.

(** The exceptions that leave the AGROVOC [load_thesaurus]: the two of the
    date (a value whose [replace] does not take [tzinfo], a value without
    [replace]), the scheme that is not there or not alone, the scheme
    without a literal, a refused thesaurus or keyword row when storing, and
    the untagged label when folding. *)
Definition agrovoc_failure (accepts : Sink) (g : Graph) (store lower_case : bool)
  (e : Exc) : Prop :=
  (e = TypeError /\ Agrovoc.thesaurus_date g = inl TypeError)
  \/ e = UniquenessError
  \/ e = CommandError "ConceptScheme not found in file"
  \/ e = IndexError
  \/ (e = IntegrityError /\ store = true
      /\ exists rows r, is_label r = false /\ accepts rows r = false)
  \/ (e = AttributeError
      /\ (Agrovoc.thesaurus_date g = inl AttributeError \/ lower_case = true)).

(** The exceptions that leave the GEMET [load_thesaurus]. *)
Definition gemet_failure (accepts : Sink) (store : bool) (e : Exc) : Prop :=
  e = UniquenessError
  \/ e = CommandError "ConceptScheme not found in file"
  \/ e = IndexError
  \/ (e = IntegrityError /\ store = true
      /\ exists rows t, accepts rows (RThesaurus t) = false).

(** The thesaurus row the GEMET loader builds for a scheme and its title. *)
Definition gemet_thesaurus_row (g : Graph) (name scheme title : string) : Thesaurus.t :=
  {| Thesaurus.identifier := name;
     Thesaurus.description :=
       match value g (TNode scheme) DC_description with
       | Some d => term_str d
       | None => title
       end;
     Thesaurus.title := title;
     Thesaurus.about := scheme;
     Thesaurus.date :=
       match value g (TNode scheme) DCTERMS_issued with
       | Some d => term_str d
       | None => "2024-01-01"
       end |}.

(** The thesaurus row the AGROVOC loader builds. *)
Definition agrovoc_thesaurus_row (g : Graph) (name scheme title date : string)
  : Thesaurus.t :=
  {| Thesaurus.identifier := name;
     Thesaurus.description :=
       match value g (TNode scheme) DC_description with
       | Some d => term_str d
       | None => title
       end;
     Thesaurus.title := title;
     Thesaurus.about := scheme;
     Thesaurus.date := date |}.

(** An AGROVOC file whose modification date is the integer [2022]. *)
Definition numbered_sample : Graph :=
  [mkTriple AGROVOC_ConceptSchemeURI RDF_type (TNode SKOS_ConceptScheme);
   mkTriple AGROVOC_ConceptSchemeURI RDFS_label (TLit (mkLiteral "AGROVOC" (Some "en") None));
   mkTriple AGROVOC_ConceptSchemeURI DCTERMS_modified
     (TLit (mkLiteral "2022" None (Some PyNoReplace)));
   mkTriple "http://aims.fao.org/aos/agrovoc/c_Tree" SKOS_inScheme (TNode AGROVOC_ConceptSchemeURI);
   mkTriple "http://aims.fao.org/aos/agrovoc/c_Tree" SKOS_XL.prefLabel (TNode "xl_en_tree");
   mkTriple "xl_en_tree" SKOS_XL.literalForm (TLit (mkLiteral "Tree" (Some "en") None))].

(** An AGROVOC file in which one [skos-xl:prefLabel] target of [c_Tree] has
    no literal form. *)
Definition orphan_sample : Graph :=
  [mkTriple AGROVOC_ConceptSchemeURI RDF_type (TNode SKOS_ConceptScheme);
   mkTriple AGROVOC_ConceptSchemeURI RDFS_label (TLit (mkLiteral "AGROVOC" (Some "en") None));
   mkTriple AGROVOC_ConceptSchemeURI DCTERMS_modified
     (TLit (mkLiteral "2022-04-04T13:50:00Z" None (Some (PyDatetime "2022-04-04T13:50:00"))));
   mkTriple "http://aims.fao.org/aos/agrovoc/c_Tree" SKOS_inScheme (TNode AGROVOC_ConceptSchemeURI);
   mkTriple "http://aims.fao.org/aos/agrovoc/c_Tree" SKOS_XL.prefLabel (TNode "xl_en_tree");
   mkTriple "xl_en_tree" SKOS_XL.literalForm (TLit (mkLiteral "Tree" (Some "en") None));
   mkTriple "http://aims.fao.org/aos/agrovoc/c_Tree" SKOS_XL.prefLabel (TNode "xl_orphan")].

(** [m], started in a world of [Pre], returns in a world of [Post] or raises
    in a world of [Exn]. *)
Definition hoare {A} (Pre : World -> Prop) (m : M A) (Post : A -> World -> Prop)
  (Exn : World -> Prop) : Prop :=
  forall w, Pre w ->
    match m w with
    | (w', inr a) => Post a w'
    | (w', inl _) => Exn w'
    end.

(** The row a row belongs to is among [rows]: the keyword of a label, the
    thesaurus of a keyword. *)
Definition parent_in (r : Row) (rows : list Row) : Prop :=
  match r with
  | RThesaurus _ => True
  | RKeyword tk => In (RThesaurus (ThesaurusKeyword.thesaurus tk)) rows
  | RLabel tkl => In (RKeyword (ThesaurusKeywordLabel.keyword tkl)) rows
  end.

(** Every row comes after the row it belongs to. *)
Inductive closed : list Row -> Prop :=
| closed_nil : closed []
| closed_snoc (rows : list Row) (r : Row) :
    closed rows -> parent_in r rows -> closed (rows ++ [r])%list.

Definition is_thesaurus (r : Row) : bool :=
  match r with
  | RThesaurus _ => true
  | _ => false
  end.

(** The thesaurus rows among the rows submitted. *)
Definition thesaurus_rows (rows : list Row) : list Row := filter is_thesaurus rows.

(** The rows persisted are closed and, in a run that stores, hold [rows]. *)
Definition kept (store : bool) (rows : list Row) (w : World) : Prop :=
  closed (db w) /\ (store = true -> incl rows (db w)).

(** The labels the AGROVOC loop counts: the ones whose tag, folded when
    folding is on, is a supported language. *)
Definition counted (g : Graph) (lower_case : bool) (e : Term) : bool :=
  match language (literal_form g e) with
  | Some tag => supported (__apply_lower_case__ tag lower_case)
  | None => false
  end.

(** The two runs have persisted and submitted the same rows. *)
Definition same_rows (w1 w2 : World) : Prop :=
  db w1 = db w2 /\ saves w1 = saves w2.

(** * Properties *)

(** ** Python's string order *)

Lemma string_compare_refl (a : string) : String.compare a a = Eq.
Proof.
  induction a as [|c a IH]; simpl; auto.
  unfold Ascii.compare. now rewrite N.compare_refl.
Qed.

(** The strict order of [String.compare] is the one of [String_as_OT]. *)
Lemma string_lt_trans (a b c : string) :
  String.compare a b = Lt -> String.compare b c = Lt -> String.compare a c = Lt.
Proof.
  exact (@StrictOrder_Transitive _ _ String_as_OT.lt_strorder a b c).
Qed.

Lemma string_ltb_irrefl (a : string) : String.ltb a a = false.
Proof. unfold String.ltb. now rewrite string_compare_refl. Qed.

Lemma string_ltb_leb (a b : string) : String.ltb a b = true -> String.leb a b = true.
Proof. unfold String.ltb, String.leb. destruct (String.compare a b); auto. Qed.

Lemma string_nltb_leb (a b : string) : String.ltb a b = false -> String.leb b a = true.
Proof.
  unfold String.ltb, String.leb. rewrite (String.compare_antisym a b).
  destruct (String.compare b a); simpl; intros H; auto; discriminate.
Qed.

Lemma string_leb_refl (a : string) : String.leb a a = true.
Proof. unfold String.leb. now rewrite string_compare_refl. Qed.

Lemma string_leb_trans (a b c : string) :
  String.leb a b = true -> String.leb b c = true -> String.leb a c = true.
Proof.
  unfold String.leb.
  destruct (String.compare a b) eqn:Hab; try discriminate;
    destruct (String.compare b c) eqn:Hbc; try discriminate; intros _ _.
  - apply String.compare_eq_iff in Hab, Hbc. subst. now rewrite string_compare_refl.
  - apply String.compare_eq_iff in Hab. subst. now rewrite Hbc.
  - apply String.compare_eq_iff in Hbc. subst. now rewrite Hab.
  - now rewrite (string_lt_trans _ _ _ Hab Hbc).
Qed.

Lemma string_ltb_neq (a b : string) : String.ltb a b = true -> a <> b.
Proof. intros H ->. rewrite string_ltb_irrefl in H. discriminate. Qed.

(** ** [sorted] is the stable sort *)

Section SortedFacts.
Variable A : Type.
Variable key : A -> string.

Let le (a b : A) : Prop := String.leb (key a) (key b) = true.

Lemma insert_by_key_perm (x : A) (l : list A) :
  Permutation (x :: l) (insert_by_key key x l).
Proof.
  induction l as [|y l IH]; simpl; auto.
  destruct (String.ltb (key y) (key x)); auto.
  rewrite perm_swap. now constructor.
Qed.

Lemma sorted_perm (l : list A) : Permutation l (sorted key l).
Proof.
  induction l as [|x l IH]; simpl; auto.
  rewrite <- insert_by_key_perm. now constructor.
Qed.

Lemma insert_by_key_sorted (x : A) (l : list A) :
  StronglySorted le l -> StronglySorted le (insert_by_key key x l).
Proof.
  induction 1 as [|y l Hs IH Hy]; simpl.
  - repeat constructor.
  - destruct (String.ltb (key y) (key x)) eqn:E.
    + constructor; auto.
      rewrite <- insert_by_key_perm. constructor; auto.
      now apply string_ltb_leb.
    + apply string_nltb_leb in E.
      constructor; [now constructor|].
      constructor; auto.
      eapply Forall_impl; [|exact Hy].
      intros z Hz. unfold le in *. eapply string_leb_trans; eauto.
Qed.

Lemma sorted_sorted (l : list A) : StronglySorted le (sorted key l).
Proof.
  induction l as [|x l IH]; simpl; [constructor|].
  now apply insert_by_key_sorted.
Qed.

Lemma insert_by_key_filter (k : string) (x : A) (l : list A) :
  filter (fun a => String.eqb (key a) k) (insert_by_key key x l)
  = filter (fun a => String.eqb (key a) k) (x :: l).
Proof.
  induction l as [|y l IH]; auto.
  cbn [insert_by_key].
  destruct (String.ltb (key y) (key x)) eqn:E; auto.
  apply string_ltb_neq in E.
  cbn [filter] in *. rewrite IH.
  destruct (String.eqb_spec (key x) k), (String.eqb_spec (key y) k); congruence.
Qed.

Lemma sorted_filter (k : string) (l : list A) :
  filter (fun a => String.eqb (key a) k) (sorted key l)
  = filter (fun a => String.eqb (key a) k) l.
Proof.
  induction l as [|x l IH]; auto.
  cbn [sorted fold_right]. rewrite insert_by_key_filter.
  cbn [filter]. fold (sorted key l). now rewrite IH.
Qed.

Lemma sorted_is_stable_sort (l : list A) : is_stable_sort key l (sorted key l).
Proof.
  repeat split; [apply sorted_perm | apply sorted_sorted | intro; apply sorted_filter].
Qed.

(** Two key-sorted lists with the same elements per key, in the same
    order, are one list: whichever stable sort Python runs, it returns
    [sorted key l]. *)
Lemma stable_sorted_eq (l1 l2 : list A) :
  Permutation l1 l2 ->
  StronglySorted le l1 -> StronglySorted le l2 ->
  (forall k, filter (fun a => String.eqb (key a) k) l1
             = filter (fun a => String.eqb (key a) k) l2) ->
  l1 = l2.
Proof.
  revert l2; induction l1 as [|a l1 IH]; intros l2 Hp H1 H2 Hf.
  - now apply Permutation_nil in Hp.
  - destruct l2 as [|b l2].
    { symmetry in Hp. now apply Permutation_nil in Hp. }
    inversion H1 as [|? ? H1' Ha]; subst.
    inversion H2 as [|? ? H2' Hb]; subst.
    assert (Hab : key a = key b).
    { apply String.leb_antisym.
      - assert (In b (a :: l1)) as [->|Hin]
          by (eapply Permutation_in; [symmetry; exact Hp | now left]).
        + apply string_leb_refl.
        + rewrite Forall_forall in Ha. now apply Ha.
      - assert (In a (b :: l2)) as [->|Hin]
          by (eapply Permutation_in; [exact Hp | now left]).
        + apply string_leb_refl.
        + rewrite Forall_forall in Hb. now apply Hb. }
    assert (a = b).
    { specialize (Hf (key a)). cbn [filter] in Hf.
      rewrite <- Hab, String.eqb_refl in Hf. congruence. }
    subst b. f_equal.
    apply IH; auto.
    + eapply Permutation_cons_inv; eauto.
    + intro k. specialize (Hf k). cbn [filter] in Hf.
      destruct (String.eqb (key a) k); congruence.
Qed.

Lemma stable_sort_unique (l l' : list A) :
  is_stable_sort key l l' -> l' = sorted key l.
Proof.
  intros (Hp & Hs & Hf).
  destruct (sorted_is_stable_sort l) as (Hp' & Hs' & Hf').
  apply stable_sorted_eq; auto.
  - now rewrite <- Hp.
  - intro k. now rewrite Hf, Hf'.
Qed.
End SortedFacts.

(** ** The language selector *)

Lemma selects_dec (default_lang : string) (item : Literal) :
  {selects default_lang item} + {~ selects default_lang item}.
Proof.
  unfold selects. destruct (language item) as [tag|].
  - destruct (String.eqb_spec (split_hyphen_0 tag) default_lang) as [E|E].
    + left. right. now exists tag.
    + right. intros [H|(t & H & H')]; [discriminate|]. congruence.
  - left. now left.
Qed.

(** The loop stops at the first literal it [selects]. *)
Lemma scan_sorted_lang_some (l : list Literal) (default_lang s : string) :
  scan_sorted_lang l default_lang = Some s ->
  exists pre item post,
    l = (pre ++ item :: post)%list
    /\ Forall (fun x => ~ selects default_lang x) pre
    /\ selects default_lang item
    /\ s = lexical item.
Proof.
  induction l as [|x l IH]; simpl; [discriminate|].
  destruct (language x) as [tag|] eqn:Hx.
  - destruct (String.eqb_spec (split_hyphen_0 tag) default_lang) as [E|E].
    + intros [= <-]. exists [], x, l. repeat split; auto.
      right. now exists tag.
    + intros H. destruct (IH H) as (pre & item & post & -> & Hpre & Hit & ->).
      exists (x :: pre), item, post. repeat split; auto.
      constructor; auto.
      intros [H'|(t & H' & H'')]; congruence.
  - intros [= <-]. exists [], x, l. repeat split; auto. now left.
Qed.

Lemma scan_sorted_lang_none (l : list Literal) (default_lang : string) :
  scan_sorted_lang l default_lang = None ->
  Forall (fun x => ~ selects default_lang x) l.
Proof.
  induction l as [|x l IH]; simpl; [constructor|].
  destruct (language x) as [tag|] eqn:Hx; [|discriminate].
  destruct (String.eqb_spec (split_hyphen_0 tag) default_lang) as [E|E]; [discriminate|].
  intros H. constructor; auto.
  intros [H'|(t & H' & H'')]; congruence.
Qed.

(** C1.  For a non-empty list of literals, [value_for_language] scans the
    one stable sort of the list by language tag (no tag counting as the empty
    string) and returns the text of the first literal with no tag or with the
    target as primary subtag; when the list has no such literal it returns
    the text of the first literal of the list as it was given. *)
Theorem value_for_language_scans_sorted
  (available : list Literal) (default_lang : string) :
  available <> [] ->
  exists sorted_lang,
    is_stable_sort lang_key available sorted_lang
    /\ (forall l', is_stable_sort lang_key available l' -> l' = sorted_lang)
    /\ ((exists pre item post,
            sorted_lang = (pre ++ item :: post)%list
            /\ Forall (fun x => ~ selects default_lang x) pre
            /\ selects default_lang item
            /\ value_for_language available default_lang = inr (lexical item))
        \/ (Forall (fun x => ~ selects default_lang x) available
            /\ exists first rest,
                 available = first :: rest
                 /\ value_for_language available default_lang = inr (lexical first))).
Proof.
  intros Hne. exists (sorted lang_key available).
  split; [apply sorted_is_stable_sort|].
  split; [intros l'; apply stable_sort_unique|].
  unfold value_for_language.
  destruct (scan_sorted_lang (sorted lang_key available) default_lang) as [s|] eqn:Hscan.
  - left. apply scan_sorted_lang_some in Hscan.
    destruct Hscan as (pre & item & post & Heq & Hpre & Hit & ->).
    now exists pre, item, post.
  - right. apply scan_sorted_lang_none in Hscan. split.
    + eapply Permutation_Forall; [|exact Hscan].
      symmetry. apply sorted_perm.
    + destruct available as [|first rest]; [contradiction|].
      now exists first, rest.
Qed.

(** The theorem at three titles, none in the target language: the sort puts
    ["de"] first, the fall-back still answers with the first title given. *)
Lemma value_for_language_scans_sorted_witness :
  exists sorted_lang,
    is_stable_sort lang_key
      [mkLiteral "Thesaurus" (Some "fr") None; mkLiteral "Wortschatz" (Some "de") None]
      sorted_lang
    /\ (forall l',
          is_stable_sort lang_key
            [mkLiteral "Thesaurus" (Some "fr") None; mkLiteral "Wortschatz" (Some "de") None]
            l' -> l' = sorted_lang)
    /\ ((exists pre item post,
            sorted_lang = (pre ++ item :: post)%list
            /\ Forall (fun x => ~ selects "en" x) pre
            /\ selects "en" item
            /\ value_for_language
                 [mkLiteral "Thesaurus" (Some "fr") None;
                  mkLiteral "Wortschatz" (Some "de") None] "en"
               = inr (lexical item))
        \/ (Forall (fun x => ~ selects "en" x)
              [mkLiteral "Thesaurus" (Some "fr") None; mkLiteral "Wortschatz" (Some "de") None]
            /\ exists first rest,
                 [mkLiteral "Thesaurus" (Some "fr") None; mkLiteral "Wortschatz" (Some "de") None]
                 = first :: rest
                 /\ value_for_language
                      [mkLiteral "Thesaurus" (Some "fr") None;
                       mkLiteral "Wortschatz" (Some "de") None] "en"
                    = inr (lexical first))).
Proof.
  apply (value_for_language_scans_sorted
           [mkLiteral "Thesaurus" (Some "fr") None; mkLiteral "Wortschatz" (Some "de") None]
           "en").
  discriminate.
Defined.

(** The fall-back is the first literal given, not the first after the sort. *)
Example value_for_language_fallback_original_order :
  value_for_language
    [mkLiteral "Thesaurus" (Some "fr") None; mkLiteral "Wortschatz" (Some "de") None] "en"
  = inr "Thesaurus"
  /\ sorted lang_key
       [mkLiteral "Thesaurus" (Some "fr") None; mkLiteral "Wortschatz" (Some "de") None]
     = [mkLiteral "Wortschatz" (Some "de") None; mkLiteral "Thesaurus" (Some "fr") None].
Proof. split; reflexivity. Qed.

(** An untagged literal wins over one in the target language. *)
Example value_for_language_untagged_first :
  value_for_language
    [mkLiteral "Thesaurus" (Some "en") None; mkLiteral "Plain" None None] "en"
  = inr "Plain".
Proof. reflexivity. Qed.

(** The empty list is the [IndexError] of [available[0]]. *)
Example value_for_language_empty (default_lang : string) :
  value_for_language [] default_lang = inl IndexError.
Proof. reflexivity. Qed.

(** ** The SKOS-XL canonical label *)

Lemma option_string_eqb_spec (a b : option string) :
  reflect (a = b) (option_string_eqb a b).
Proof.
  destruct a as [x|], b as [y|]; simpl; try (constructor; congruence).
  destruct (String.eqb_spec x y); constructor; congruence.
Qed.

Lemma get_default_language_preflabel_loop_spec
  (g : Graph) (labels : list Term) (default_lang : string) :
  (exists pre target post,
      labels = (pre ++ target :: post)%list
      /\ Forall (fun t => language (literal_form g t) <> Some default_lang) pre
      /\ language (literal_form g target) = Some default_lang
      /\ Agrovoc.get_default_language_preflabel_loop g labels default_lang
         = Some (lexical (literal_form g target)))
  \/ (Forall (fun t => language (literal_form g t) <> Some default_lang) labels
      /\ Agrovoc.get_default_language_preflabel_loop g labels default_lang = None).
Proof.
  induction labels as [|t labels IH]; simpl.
  - right. split; [constructor | reflexivity].
  - fold (literal_form g t).
    destruct (option_string_eqb_spec (language (literal_form g t)) (Some default_lang))
      as [E|E].
    + left. exists [], t, labels. repeat split; auto.
    + destruct IH as [(pre & target & post & -> & Hpre & Ht & Hres)|[Hall Hres]].
      * left. exists (t :: pre), target, post. repeat split; auto.
      * right. split; auto.
Qed.

(** C3.  [get_default_language_preflabel] returns the literal-form text of
    the first [skos-xl:prefLabel] target of the concept whose language tag is
    the default language itself, and no label when no target has that very
    tag. *)
Theorem get_default_language_preflabel_exact_tag
  (g : Graph) (concept default_lang : string) :
  let targets := objects g (TNode concept) (Some SKOS_XL.prefLabel) in
  (exists pre target post,
      targets = (pre ++ target :: post)%list
      /\ Forall (fun t => language (literal_form g t) <> Some default_lang) pre
      /\ language (literal_form g target) = Some default_lang
      /\ Agrovoc.get_default_language_preflabel g concept default_lang
         = Some (lexical (literal_form g target)))
  \/ (Forall (fun t => language (literal_form g t) <> Some default_lang) targets
      /\ Agrovoc.get_default_language_preflabel g concept default_lang = None).
Proof.
  intros targets. unfold Agrovoc.get_default_language_preflabel.
  apply get_default_language_preflabel_loop_spec.
Qed.

(** No primary-subtag relaxation: ["en-GB"] is not ["en"] here, though the
    selector takes it. *)
Example get_default_language_preflabel_no_relaxation :
  let g := [mkTriple "c" SKOS_XL.prefLabel (TNode "x");
            mkTriple "x" SKOS_XL.literalForm (TLit (mkLiteral "colour" (Some "en-GB") None))] in
  Agrovoc.get_default_language_preflabel g "c" "en" = None
  /\ value_for_language [mkLiteral "colour" (Some "en-GB") None] "en" = inr "colour".
Proof. split; reflexivity. Qed.

(** ** The SKOS-plain preferred label *)

Lemma langfilter_literal (lang : option string) (l : Literal) :
  Gemet.langfilter lang (TLit l) = inr (passes lang l).
Proof.
  unfold Gemet.langfilter, passes. destruct lang as [lang|]; auto.
  destruct (String.eqb lang ""); reflexivity.
Qed.

Lemma py_filter_literals (lang : option string) (ls : list Literal) :
  Gemet.py_filter (Gemet.langfilter lang) (map TLit ls)
  = inr (map TLit (filter (passes lang) ls)).
Proof.
  induction ls as [|l ls IH]; simpl; auto.
  rewrite langfilter_literal, IH. now destruct (passes lang l).
Qed.

(** C2, as the code has it.  On a subject whose label objects are literals,
    [preferredLabel] filters by language first and prefers afterwards: the
    [skos:prefLabel] literals that pass the filter when there is one, else
    the [rdfs:label] literals that pass it when there is one, and the default
    only when no literal of either property passes. *)
Theorem preferredLabel_filters_then_prefers
  (g : Graph) (subject : string) (lang : option string)
  (default : option (list (string * Term))) (prefs labels : list Literal) :
  objects g (TNode subject) (Some SKOS_prefLabel) = map TLit prefs ->
  objects g (TNode subject) (Some RDFS_label) = map TLit labels ->
  Gemet.preferredLabel g subject lang default Gemet.default_label_properties
  = inr match filter (passes lang) prefs, filter (passes lang) labels with
        | p :: ps, _ => map (fun l => (SKOS_prefLabel, TLit l)) (p :: ps)
        | [], l :: ls => map (fun l => (RDFS_label, TLit l)) (l :: ls)
        | [], [] => match default with None => [] | Some d => d end
        end.
Proof.
  intros Hp Hl. unfold Gemet.preferredLabel, Gemet.default_label_properties.
  cbn [Gemet.preferredLabel_loop].
  rewrite Hp, Hl, !py_filter_literals.
  destruct (filter (passes lang) prefs) as [|p ps]; cbn [map].
  - destruct (filter (passes lang) labels) as [|l ls]; cbn [map]; auto.
    now rewrite map_map.
  - f_equal. f_equal. now rewrite map_map.
Qed.

Lemma preferredLabel_filters_then_prefers_witness :
  Gemet.preferredLabel haus_graph "c" (Some "en") None Gemet.default_label_properties
  = inr match filter (passes (Some "en")) [mkLiteral "Haus" (Some "de") None],
              filter (passes (Some "en")) [mkLiteral "House" (Some "en") None] with
        | p :: ps, _ => map (fun l => (SKOS_prefLabel, TLit l)) (p :: ps)
        | [], l :: ls => map (fun l => (RDFS_label, TLit l)) (l :: ls)
        | [], [] => []
        end.
Proof.
  apply (preferredLabel_filters_then_prefers haus_graph "c" (Some "en") None
           [mkLiteral "Haus" (Some "de") None] [mkLiteral "House" (Some "en") None]);
    reflexivity.
Defined.

(** C2 as the specification words it fails: the subject has a
    [skos:prefLabel] literal, none passes the filter ["en"], and the result is
    the [rdfs:label], not the empty default. *)
Lemma preferredLabel_falls_through_counterexample :
  (exists l, In (TLit l) (objects haus_graph (TNode "c") (Some SKOS_prefLabel)))
  /\ Forall (fun t => Gemet.langfilter (Some "en") t = inr false)
       (objects haus_graph (TNode "c") (Some SKOS_prefLabel))
  /\ Gemet.preferredLabel haus_graph "c" (Some "en") None Gemet.default_label_properties
     = inr [(RDFS_label, TLit (mkLiteral "House" (Some "en") None))]
  /\ Gemet.preferredLabel haus_graph "c" (Some "en") None Gemet.default_label_properties
     <> inr [].
Proof.
  split; [|split; [|split]].
  - exists (mkLiteral "Haus" (Some "de") None). now left.
  - repeat constructor.
  - reflexivity.
  - discriminate.
Qed.

(** ** Reasoning about a run *)

Lemma extends_refl {X} (P : X -> Prop) (l : list X) : extends P l l.
Proof. exists []. split; [now rewrite app_nil_r | constructor]. Qed.

Lemma extends_trans {X} (P : X -> Prop) (l1 l2 l3 : list X) :
  extends P l1 l2 -> extends P l2 l3 -> extends P l1 l3.
Proof.
  intros (a & -> & Ha) (b & -> & Hb). exists (a ++ b)%list.
  split; [now rewrite app_assoc | now apply Forall_app].
Qed.

Lemma extends_one {X} (P : X -> Prop) (l : list X) (x : X) :
  P x -> extends P l (l ++ [x]).
Proof. intros H. exists [x]. split; auto. Qed.

Lemma extends_impl {X} (P P' : X -> Prop) (l l' : list X) :
  (forall x, P x -> P' x) -> extends P l l' -> extends P' l l'.
Proof.
  intros H (a & -> & Ha). exists a. split; auto.
  eapply Forall_impl; eauto.
Qed.

Lemma extends_false {X} (l l' : list X) : extends (fun _ => False) l l' -> l' = l.
Proof.
  intros ([|x a] & -> & Ha); [now rewrite app_nil_r|].
  inversion Ha; contradiction.
Qed.

Lemma grows_refl P Q w : grows P Q w w.
Proof. repeat split; apply extends_refl. Qed.

Lemma grows_trans P Q w1 w2 w3 : grows P Q w1 w2 -> grows P Q w2 w3 -> grows P Q w1 w3.
Proof.
  intros (A1 & B1 & C1) (A2 & B2 & C2).
  repeat split; eapply extends_trans; eauto.
Qed.

Lemma grows_impl (P P' : Row -> Prop) (Q Q' : Output -> Prop) w w' :
  (forall r, P r -> P' r) -> (forall o, Q o -> Q' o) -> grows P Q w w' -> grows P' Q' w w'.
Proof.
  intros HP HQ (A & B & C). repeat split; eapply extends_impl; eauto.
Qed.

Section OnlyAdds.
Variable P : Row -> Prop.
Variable Q : Output -> Prop.

Lemma only_adds_ret {A} (a : A) : only_adds P Q (ret a).
Proof. intro w. apply grows_refl. Qed.

Lemma only_adds_raise {A} (e : Exc) : only_adds P Q (raise (A := A) e).
Proof. intro w. apply grows_refl. Qed.

Lemma only_adds_lift {A} (r : result A) : only_adds P Q (lift r).
Proof. intro w. apply grows_refl. Qed.

Lemma only_adds_bind {A B} (m : M A) (k : A -> M B) :
  only_adds P Q m -> (forall a, only_adds P Q (k a)) -> only_adds P Q (bind m k).
Proof.
  intros Hm Hk w. unfold bind. specialize (Hm w).
  destruct (m w) as [w' [e|a]]; simpl in *; auto.
  eapply grows_trans; [exact Hm | apply Hk].
Qed.

Lemma only_adds_try (body handler : M unit) :
  only_adds P Q body -> only_adds P Q handler -> only_adds P Q (try_except body handler).
Proof.
  intros Hb Hh w. unfold try_except. specialize (Hb w).
  destruct (body w) as [w' [e|a]]; simpl in *; auto.
  eapply grows_trans; [exact Hb | apply Hh].
Qed.

Lemma only_adds_stderr_write (style : Style) (msg : string) :
  Q (Stderr style msg) -> only_adds P Q (stderr_write style msg).
Proof.
  intros H w. repeat split; simpl; try apply extends_refl. now apply extends_one.
Qed.

Lemma only_adds_print (msg : string) :
  Q (Stdout msg) -> only_adds P Q (print msg).
Proof.
  intros H w. repeat split; simpl; try apply extends_refl. now apply extends_one.
Qed.

Lemma only_adds_save (accepts : Sink) (row : Row) :
  P row -> only_adds P Q (save accepts row).
Proof.
  intros H w. unfold save.
  destruct (accepts (db w) row); repeat split; simpl;
    try apply extends_refl; now apply extends_one.
Qed.

Lemma only_adds_save_if (store : bool) (accepts : Sink) (row : Row) :
  (store = true -> P row) -> only_adds P Q (save_if store accepts row).
Proof.
  destruct store; intros H; [apply only_adds_save; auto | apply only_adds_ret].
Qed.

Lemma only_adds_for_each {A} (l : list A) (body : A -> M unit) :
  (forall x, In x l -> only_adds P Q (body x)) -> only_adds P Q (for_each l body).
Proof.
  induction l as [|x l IH]; intros H; simpl.
  - apply only_adds_ret.
  - apply only_adds_bind; [apply H; now left|].
    intros _. apply IH. intros y Hy. apply H. now right.
Qed.
End OnlyAdds.

Lemma only_adds_bind_lift {A B} (P : Row -> Prop) (Q : Output -> Prop)
  (r : result A) (k : A -> M B) :
  (forall a, r = inr a -> only_adds P Q (k a)) -> only_adds P Q (bind (lift r) k).
Proof.
  intros H w. unfold bind, lift. destruct r as [e|a]; simpl.
  - apply grows_refl.
  - now apply H.
Qed.

(** ** What the AGROVOC loader submits *)

Section AgrovocAdds.
Variable accepts : Sink.
Variable g : Graph.
Variables name defaultlang : string.
Variables store lower_case : bool.

Let P := agrovoc_row store g name defaultlang lower_case.
Let Q := agrovoc_line store.

Lemma agrovoc_label_step_adds (concept : string) (tk : ThesaurusKeyword.t)
  (target : Term) (i : nat) :
  agrovoc_keyword g name defaultlang lower_case concept tk ->
  In target (objects g (TNode concept) (Some SKOS_XL.prefLabel)) ->
  only_adds P Q (Agrovoc.label_step accepts g store lower_case tk target i).
Proof.
  intros Hk Hin. unfold Agrovoc.label_step. fold (literal_form g target).
  apply only_adds_bind_lift. intros [lang|] Hlang; [|apply only_adds_ret].
  destruct (supported lang) eqn:Hs; simpl; [|apply only_adds_ret].
  apply only_adds_bind; [|intros; apply only_adds_ret].
  destruct store eqn:Hstore; [|apply only_adds_ret].
  apply only_adds_try.
  - apply only_adds_save. split; auto. simpl.
    unfold __apply_lower_case__opt in Hlang.
    destruct (language (literal_form g target)) as [tag|] eqn:Htag.
    + exists concept, target, tag. simpl.
      split; [exact Hk|]. split; [exact Hin|]. split; [exact Htag|].
      split; [|split; [exact Hs | reflexivity]].
      unfold __apply_lower_case__. destruct lower_case; congruence.
    + destruct lower_case; discriminate.
  - apply only_adds_stderr_write. simpl. split; eauto.
Qed.

Lemma agrovoc_label_loop_adds (concept : string) (tk : ThesaurusKeyword.t)
  (elements : list Term) (i : nat) :
  agrovoc_keyword g name defaultlang lower_case concept tk ->
  incl elements (objects g (TNode concept) (Some SKOS_XL.prefLabel)) ->
  only_adds P Q (Agrovoc.label_loop accepts g store lower_case tk elements i).
Proof.
  intros Hk. revert i. induction elements as [|e rest IH]; intros i Hincl; simpl.
  - apply only_adds_ret.
  - apply only_adds_bind.
    + eapply agrovoc_label_step_adds; eauto. apply Hincl. now left.
    + intros i'. apply IH. intros x Hx. apply Hincl. now right.
Qed.

Lemma agrovoc_concept_step_adds (thesaurus : Thesaurus.t) (concept : string) :
  agrovoc_thesaurus g name defaultlang thesaurus ->
  In concept (subjects g SKOS_inScheme (TNode AGROVOC_ConceptSchemeURI)) ->
  only_adds P Q (Agrovoc.concept_step accepts g thesaurus store defaultlang lower_case concept).
Proof.
  intros Ht Hin. unfold Agrovoc.concept_step.
  destruct (Agrovoc.get_default_language_preflabel g concept defaultlang)
    as [alt|] eqn:Halt; [|apply only_adds_ret].
  set (tk := {| ThesaurusKeyword.thesaurus := thesaurus;
                ThesaurusKeyword.about := __apply_lower_case__ concept lower_case;
                ThesaurusKeyword.alt_label := __apply_lower_case__ alt lower_case |}).
  assert (Hk : agrovoc_keyword g name defaultlang lower_case concept tk).
  { split; [exact Ht|]. split; [exact Hin|]. exists alt. auto. }
  apply only_adds_bind.
  - apply only_adds_save_if. intros Hs. split; auto. now exists concept.
  - intros _. apply only_adds_bind.
    + apply agrovoc_label_loop_adds with (concept := concept); auto. apply incl_refl.
    + intros i. now apply only_adds_stderr_write.
Qed.

Lemma agrovoc_load_thesaurus_adds (input_file title description : string) :
  only_adds P Q
    (Agrovoc.load_thesaurus accepts g input_file name store title description
       defaultlang lower_case).
Proof.
  unfold Agrovoc.load_thesaurus.
  apply only_adds_bind; [now apply only_adds_stderr_write|]. intros _.
  apply only_adds_bind; [now apply only_adds_stderr_write|]. intros _.
  apply only_adds_bind_lift. intros date Hdate.
  apply only_adds_bind_lift. intros [scheme|] Hscheme; [|apply only_adds_raise].
  apply only_adds_bind_lift. intros title' Htitle.
  match goal with
  | |- only_adds _ _ (bind (save_if _ _ (RThesaurus ?t)) _) =>
      assert (Ht : agrovoc_thesaurus g name defaultlang t)
        by (exists scheme, title', date; auto)
  end.
  apply only_adds_bind; [apply only_adds_save_if; intros; split; auto|]. intros _.
  apply only_adds_bind; [now apply only_adds_stderr_write|]. intros _.
  apply only_adds_for_each. intros concept Hin.
  now apply agrovoc_concept_step_adds.
Qed.
End AgrovocAdds.

(** ** What the GEMET loader submits *)

Section GemetAdds.
Variable accepts : Sink.
Variable g : Graph.
Variables name defaultlang : string.
Variables store lower_case : bool.

Let P := gemet_row store g name defaultlang lower_case.
Let Q := gemet_line.

Lemma gemet_label_step_adds (concept : string) (tk : ThesaurusKeyword.t)
  (labels : list (string * Term)) (pref_label : Term) :
  gemet_keyword g name defaultlang lower_case concept tk ->
  Gemet.preferredLabel g concept None None Gemet.default_label_properties = inr labels ->
  In pref_label (map snd labels) ->
  only_adds P Q (Gemet.label_step accepts store lower_case tk pref_label).
Proof.
  intros Hk Hlabels Hin. unfold Gemet.label_step.
  apply only_adds_bind_lift. intros tag Htag.
  apply only_adds_bind_lift. intros [lang|] Hlang; [|apply only_adds_ret].
  destruct (supported lang) eqn:Hs; [|apply only_adds_ret].
  apply only_adds_bind; [now apply only_adds_stderr_write|]. intros _.
  apply only_adds_save_if. intros Hstore. split; auto. simpl.
  apply in_map_iff in Hin. destruct Hin as ([labelProp t] & Ht & Hin).
  simpl in Ht. subst t.
  destruct pref_label as [u|l]; [discriminate|].
  simpl in Htag. injection Htag as <-.
  unfold __apply_lower_case__opt in Hlang.
  destruct (language l) as [tag|] eqn:Hl.
  - exists concept, labels, labelProp, l, tag. simpl.
    split; [exact Hk|]. split; [exact Hlabels|]. split; [exact Hin|].
    split; [exact Hl|]. split; [|split; [exact Hs | reflexivity]].
    unfold __apply_lower_case__. destruct lower_case; congruence.
  - destruct lower_case; discriminate.
Qed.

Lemma gemet_concept_step_adds (thesaurus : Thesaurus.t) (concept : string) :
  gemet_thesaurus g name defaultlang thesaurus ->
  In concept (subjects g RDF_type (TNode SKOS_Concept)) ->
  only_adds P Q (Gemet.concept_step accepts g thesaurus store defaultlang lower_case concept).
Proof.
  intros Ht Hin. unfold Gemet.concept_step, Gemet.pref_of.
  destruct (Gemet.preferredLabel g concept (Some defaultlang) None
              Gemet.default_label_properties) as [e|[|[labelProp l_] rest]] eqn:Hpref;
    try apply only_adds_ret.
  set (tk := {| ThesaurusKeyword.thesaurus := thesaurus;
                ThesaurusKeyword.about := __apply_lower_case__ concept lower_case;
                ThesaurusKeyword.alt_label :=
                  __apply_lower_case__ (term_str l_) lower_case |}).
  assert (Hk : gemet_keyword g name defaultlang lower_case concept tk).
  { split; [exact Ht|]. split; [exact Hin|]. exists labelProp, l_, rest. auto. }
  apply only_adds_bind; [now apply only_adds_stderr_write|]. intros _.
  apply only_adds_try.
  - apply only_adds_bind.
    + apply only_adds_save_if. intros Hs. split; auto. now exists concept.
    + intros _. apply only_adds_bind_lift. intros labels Hlabels.
      apply only_adds_for_each. intros pref_label Hpl.
      eapply gemet_label_step_adds; eauto.
  - apply only_adds_print. simpl. eauto.
Qed.

Lemma gemet_load_thesaurus_adds (input_file : string) :
  only_adds P Q
    (Gemet.load_thesaurus accepts g input_file name defaultlang store lower_case).
Proof.
  unfold Gemet.load_thesaurus.
  apply only_adds_bind; [now apply only_adds_stderr_write|]. intros _.
  apply only_adds_bind_lift. intros [scheme|] Hscheme; [|apply only_adds_raise].
  apply only_adds_bind_lift. intros title' Htitle.
  apply only_adds_bind; [now apply only_adds_stderr_write|]. intros _.
  match goal with
  | |- only_adds _ _ (bind (save_if _ _ (RThesaurus ?t)) _) =>
      assert (Ht : gemet_thesaurus g name defaultlang t)
        by (exists scheme, title'; auto)
  end.
  apply only_adds_bind; [apply only_adds_save_if; intros; split; auto|]. intros _.
  apply only_adds_for_each. intros concept Hin.
  now apply gemet_concept_step_adds.
Qed.
End GemetAdds.

(** ** Two runs side by side *)

Section Sim.
Variable R : World -> World -> Prop.

Lemma sim_ret {A} (a : A) : sim R (ret a) (ret a).
Proof. intros w1 w2 H. now split. Qed.

Lemma sim_raise {A} (e : Exc) : sim R (raise (A := A) e) (raise e).
Proof. intros w1 w2 H. now split. Qed.

Lemma sim_bind {A B} (m1 m2 : M A) (k1 k2 : A -> M B) :
  sim R m1 m2 -> (forall a, sim R (k1 a) (k2 a)) -> sim R (bind m1 k1) (bind m2 k2).
Proof.
  intros Hm Hk w1 w2 H. unfold bind. destruct (Hm w1 w2 H) as [HR Hr].
  destruct (m1 w1) as [w1' r1], (m2 w2) as [w2' r2]. simpl in *. subst r2.
  destruct r1 as [e|a]; [now split | now apply Hk].
Qed.

Lemma sim_bind_lift {A B} (r : result A) (k1 k2 : A -> M B) :
  (forall a, r = inr a -> sim R (k1 a) (k2 a)) ->
  sim R (bind (lift r) k1) (bind (lift r) k2).
Proof.
  intros Hk w1 w2 H. unfold bind, lift.
  destruct r as [e|a]; [now split | now apply Hk].
Qed.


Lemma sim_try (b1 b2 h1 h2 : M unit) :
  sim R b1 b2 -> sim R h1 h2 -> sim R (try_except b1 h1) (try_except b2 h2).
Proof.
  intros Hb Hh w1 w2 H. unfold try_except. destruct (Hb w1 w2 H) as [HR Hr].
  destruct (b1 w1) as [w1' r1], (b2 w2) as [w2' r2]. simpl in *. subst r2.
  destruct r1 as [e|a]; [now apply Hh | now split].
Qed.

Lemma sim_for_each {A} (l : list A) (f1 f2 : A -> M unit) :
  (forall x, In x l -> sim R (f1 x) (f2 x)) -> sim R (for_each l f1) (for_each l f2).
Proof.
  induction l as [|x l IH]; intros H; simpl.
  - apply sim_ret.
  - apply sim_bind; [apply H; now left|].
    intros _. apply IH. intros y Hy. apply H. now right.
Qed.
End Sim.

(** The two loaders run against two sinks, storing or not, with everything
    else the same: the runs stay related when the writes and the saves do. *)
Section LoaderSim.
Variable R : World -> World -> Prop.
Variables accepts1 accepts2 : Sink.
Variables store1 store2 : bool.
Variable g : Graph.

Hypothesis R_stderr_write : forall msg,
  sim R (stderr_write SUCCESS msg) (stderr_write SUCCESS msg).
Hypothesis R_print : forall msg, sim R (print msg) (print msg).
Hypothesis R_save_thesaurus : forall t,
  sim R (save_if store1 accepts1 (RThesaurus t)) (save_if store2 accepts2 (RThesaurus t)).

Section AgrovocSim.
Hypothesis R_save_keyword : forall tk,
  sim R (save_if store1 accepts1 (RKeyword tk)) (save_if store2 accepts2 (RKeyword tk)).
Hypothesis R_save_label : forall tkl msg,
  sim R
    (if store1 then try_except (save accepts1 (RLabel tkl)) (stderr_write ERROR msg)
     else ret tt)
    (if store2 then try_except (save accepts2 (RLabel tkl)) (stderr_write ERROR msg)
     else ret tt).

Lemma agrovoc_label_loop_sim (lower_case : bool) (tk : ThesaurusKeyword.t)
  (elements : list Term) (i : nat) :
  sim R (Agrovoc.label_loop accepts1 g store1 lower_case tk elements i)
        (Agrovoc.label_loop accepts2 g store2 lower_case tk elements i).
Proof.
  revert i. induction elements as [|e rest IH]; intros i; simpl.
  - apply sim_ret.
  - apply sim_bind; [|intros; apply IH].
    unfold Agrovoc.label_step.
    apply sim_bind_lift. intros [lang|] _; [|apply sim_ret].
    destruct (negb (supported lang)); [apply sim_ret|].
    apply sim_bind; [apply R_save_label | intros; apply sim_ret].
Qed.

Lemma agrovoc_load_thesaurus_sim
  (input_file name title description defaultlang : string) (lower_case : bool) :
  sim R
    (Agrovoc.load_thesaurus accepts1 g input_file name store1 title description
       defaultlang lower_case)
    (Agrovoc.load_thesaurus accepts2 g input_file name store2 title description
       defaultlang lower_case).
Proof.
  unfold Agrovoc.load_thesaurus.
  apply sim_bind; [apply R_stderr_write|]. intros _.
  apply sim_bind; [apply R_stderr_write|]. intros _.
  apply sim_bind_lift. intros date _.
  apply sim_bind_lift. intros [scheme|] _; [|apply sim_raise].
  apply sim_bind_lift. intros thesaurus_title _.
  apply sim_bind; [apply R_save_thesaurus|]. intros _.
  apply sim_bind; [apply R_stderr_write|]. intros _.
  apply sim_for_each. intros concept _. unfold Agrovoc.concept_step.
  destruct (Agrovoc.get_default_language_preflabel g concept defaultlang);
    [|apply sim_ret].
  apply sim_bind; [apply R_save_keyword|]. intros _.
  apply sim_bind; [apply agrovoc_label_loop_sim|]. intros i.
  apply R_stderr_write.
Qed.

Lemma agrovoc_handle_sim (options : Agrovoc.Options) (dryrun1 dryrun2 : bool) :
  store1 = negb dryrun1 -> store2 = negb dryrun2 ->
  sim R
    (Agrovoc.handle accepts1 g
       (Agrovoc.mkOptions (Agrovoc.file options) (Agrovoc.name options) dryrun1
          (Agrovoc.title options) (Agrovoc.description options)
          (Agrovoc.lower_case options) (Agrovoc.default_lang options)))
    (Agrovoc.handle accepts2 g
       (Agrovoc.mkOptions (Agrovoc.file options) (Agrovoc.name options) dryrun2
          (Agrovoc.title options) (Agrovoc.description options)
          (Agrovoc.lower_case options) (Agrovoc.default_lang options))).
Proof.
  intros E1 E2. unfold Agrovoc.handle. simpl.
  destruct (Agrovoc.file options) as [[|c f]|]; try apply sim_raise.
  destruct (Agrovoc.name options) as [[|d n]|]; try apply sim_raise.
  rewrite <- E1, <- E2. apply agrovoc_load_thesaurus_sim.
Qed.
End AgrovocSim.

Section GemetSim.
Hypothesis R_save : forall row,
  sim R (save_if store1 accepts1 row) (save_if store2 accepts2 row).

Lemma gemet_load_thesaurus_sim
  (input_file name defaultlang : string) (lower_case : bool) :
  sim R
    (Gemet.load_thesaurus accepts1 g input_file name defaultlang store1 lower_case)
    (Gemet.load_thesaurus accepts2 g input_file name defaultlang store2 lower_case).
Proof.
  unfold Gemet.load_thesaurus.
  apply sim_bind; [apply R_stderr_write|]. intros _.
  apply sim_bind_lift. intros [scheme|] _; [|apply sim_raise].
  apply sim_bind_lift. intros thesaurus_title _.
  apply sim_bind; [apply R_stderr_write|]. intros _.
  apply sim_bind; [apply R_save|]. intros _.
  apply sim_for_each. intros concept _. unfold Gemet.concept_step.
  destruct (Gemet.pref_of g concept defaultlang lower_case); [apply sim_ret|].
  apply sim_bind; [apply R_stderr_write|]. intros _.
  apply sim_try; [|apply R_print].
  apply sim_bind; [apply R_save|]. intros _.
  apply sim_bind_lift. intros labels _.
  apply sim_for_each. intros pref_label _. unfold Gemet.label_step.
  apply sim_bind_lift. intros tag _.
  apply sim_bind_lift. intros [lang|] _; [|apply sim_ret].
  destruct (supported lang); [|apply sim_ret].
  apply sim_bind; [apply R_stderr_write|]. intros _.
  apply R_save.
Qed.

Lemma gemet_handle_sim (options : Gemet.Options) (dryrun1 dryrun2 : bool) :
  store1 = negb dryrun1 -> store2 = negb dryrun2 ->
  sim R
    (Gemet.handle accepts1 g
       (Gemet.mkOptions (Gemet.file options) (Gemet.name options) dryrun1
          (Gemet.lower_case options) (Gemet.default_lang options)))
    (Gemet.handle accepts2 g
       (Gemet.mkOptions (Gemet.file options) (Gemet.name options) dryrun2
          (Gemet.lower_case options) (Gemet.default_lang options))).
Proof.
  intros E1 E2. unfold Gemet.handle. simpl.
  destruct (Gemet.file options) as [[|c f]|]; try apply sim_raise.
  destruct (Gemet.name options) as [[|d n]|]; try apply sim_raise.
  rewrite <- E1, <- E2. apply gemet_load_thesaurus_sim.
Qed.
End GemetSim.
End LoaderSim.

(** ** Dry run *)

Lemma same_out_stderr_write (style : Style) (msg : string) :
  sim same_out (stderr_write style msg) (stderr_write style msg).
Proof. intros w1 w2 H. unfold same_out in *. simpl. now rewrite H. Qed.

Lemma same_out_print (msg : string) : sim same_out (print msg) (print msg).
Proof. intros w1 w2 H. unfold same_out in *. simpl. now rewrite H. Qed.

Lemma same_out_save_dry (accepts : Sink) (row : Row) :
  sim same_out (save_if false accepts row) (save_if true accept_all row).
Proof. intros w1 w2 H. now split. Qed.

Lemma same_out_save_label_dry (tkl : ThesaurusKeywordLabel.t) (msg : string) :
  sim same_out (ret tt)
    (try_except (save accept_all (RLabel tkl)) (stderr_write ERROR msg)).
Proof. intros w1 w2 H. now split. Qed.

Lemma agrovoc_handle_dry_adds (accepts : Sink) (g : Graph) (options : Agrovoc.Options) :
  Agrovoc.dryrun options = true ->
  only_adds (fun _ => False) (fun _ => True) (Agrovoc.handle accepts g options).
Proof.
  intros Hdry w. unfold Agrovoc.handle.
  destruct (Agrovoc.file options) as [[|c f]|]; try apply grows_refl.
  destruct (Agrovoc.name options) as [[|d n]|]; try apply grows_refl.
  rewrite Hdry. simpl negb.
  eapply grows_impl; [| |apply agrovoc_load_thesaurus_adds].
  - intros r [H _]. discriminate.
  - auto.
Qed.

Lemma gemet_handle_dry_adds (accepts : Sink) (g : Graph) (options : Gemet.Options) :
  Gemet.dryrun options = true ->
  only_adds (fun _ => False) (fun _ => True) (Gemet.handle accepts g options).
Proof.
  intros Hdry w. unfold Gemet.handle.
  destruct (Gemet.file options) as [[|c f]|]; try apply grows_refl.
  destruct (Gemet.name options) as [[|d n]|]; try apply grows_refl.
  rewrite Hdry. simpl negb.
  eapply grows_impl; [| |apply gemet_load_thesaurus_adds].
  - intros r [H _]. discriminate.
  - auto.
Qed.

(** C8.  With [--dry-run] both commands call [save()] on nothing and
    persist nothing, whatever the sink would do, and they resolve and log
    what a storing run against a sink that takes every row resolves and logs:
    the same lines, the same outcome. *)
Theorem dry_run_saves_nothing
  (accepts : Sink) (g : Graph) (w : World)
  (a : Agrovoc.Options) (o : Gemet.Options) :
  let dry_a := Agrovoc.mkOptions (Agrovoc.file a) (Agrovoc.name a) true
                 (Agrovoc.title a) (Agrovoc.description a)
                 (Agrovoc.lower_case a) (Agrovoc.default_lang a) in
  let wet_a := Agrovoc.mkOptions (Agrovoc.file a) (Agrovoc.name a) false
                 (Agrovoc.title a) (Agrovoc.description a)
                 (Agrovoc.lower_case a) (Agrovoc.default_lang a) in
  let dry_o := Gemet.mkOptions (Gemet.file o) (Gemet.name o) true
                 (Gemet.lower_case o) (Gemet.default_lang o) in
  let wet_o := Gemet.mkOptions (Gemet.file o) (Gemet.name o) false
                 (Gemet.lower_case o) (Gemet.default_lang o) in
  (db (fst (Agrovoc.handle accepts g dry_a w)) = db w
   /\ saves (fst (Agrovoc.handle accepts g dry_a w)) = saves w
   /\ out (fst (Agrovoc.handle accepts g dry_a w))
      = out (fst (Agrovoc.handle accept_all g wet_a w))
   /\ snd (Agrovoc.handle accepts g dry_a w) = snd (Agrovoc.handle accept_all g wet_a w))
  /\ (db (fst (Gemet.handle accepts g dry_o w)) = db w
      /\ saves (fst (Gemet.handle accepts g dry_o w)) = saves w
      /\ out (fst (Gemet.handle accepts g dry_o w))
         = out (fst (Gemet.handle accept_all g wet_o w))
      /\ snd (Gemet.handle accepts g dry_o w) = snd (Gemet.handle accept_all g wet_o w)).
Proof.
  intros dry_a wet_a dry_o wet_o. split.
  - destruct (agrovoc_handle_dry_adds accepts g dry_a eq_refl w) as (Hdb & Hsaves & _).
    apply extends_false in Hdb, Hsaves.
    split; [exact Hdb|]. split; [exact Hsaves|].
    exact (agrovoc_handle_sim same_out accepts accept_all false true g
             (same_out_stderr_write SUCCESS)
             (fun t => same_out_save_dry accepts (RThesaurus t))
             (fun tk => same_out_save_dry accepts (RKeyword tk))
             same_out_save_label_dry a true false eq_refl eq_refl w w eq_refl).
  - destruct (gemet_handle_dry_adds accepts g dry_o eq_refl w) as (Hdb & Hsaves & _).
    apply extends_false in Hdb, Hsaves.
    split; [exact Hdb|]. split; [exact Hsaves|].
    exact (gemet_handle_sim same_out accepts accept_all false true g
             (same_out_stderr_write SUCCESS) same_out_print
             (same_out_save_dry accepts) o true false eq_refl eq_refl w w eq_refl).
Qed.

(** ** The language whitelist *)

Lemma supported_in (lang : string) :
  supported lang = true <-> In lang SUPPORTED_LANGUAGES.
Proof.
  unfold supported. rewrite existsb_exists. split.
  - intros (x & Hx & E). apply String.eqb_eq in E. now subst.
  - intros H. exists lang. split; auto. apply String.eqb_refl.
Qed.


(** C6, as the code has it.  Every [ThesaurusKeywordLabel] either loader
    persists has a [lang] of the supported set, and it comes from a label
    literal of its concept whose tag, folded when folding is on, is that
    [lang]: a literal whose tag after the optional folding is outside the set
    leaves no row. *)
Theorem persisted_label_lang_supported
  (accepts : Sink) (g : Graph) (w : World)
  (input_file name title description defaultlang : string) (store lower_case : bool) :
  (exists added,
      db (fst (Agrovoc.load_thesaurus accepts g input_file name store title description
                 defaultlang lower_case w)) = (db w ++ added)%list
      /\ forall tkl, In (RLabel tkl) added ->
           In (ThesaurusKeywordLabel.lang tkl) SUPPORTED_LANGUAGES
           /\ agrovoc_label g name defaultlang lower_case tkl)
  /\ (exists added,
         db (fst (Gemet.load_thesaurus accepts g input_file name defaultlang store
                    lower_case w)) = (db w ++ added)%list
         /\ forall tkl, In (RLabel tkl) added ->
              In (ThesaurusKeywordLabel.lang tkl) SUPPORTED_LANGUAGES
              /\ gemet_label g name defaultlang lower_case tkl).
Proof.
  split.
  - destruct (agrovoc_load_thesaurus_adds accepts g name defaultlang store lower_case
                input_file title description w) as ((added & Hdb & Hall) & _).
    exists added. split; [exact Hdb|].
    intros tkl Hin. rewrite Forall_forall in Hall.
    destruct (Hall _ Hin) as [_ Hl]. split; [|exact Hl].
    destruct Hl as (c & t & tag & _ & _ & _ & _ & Hs & _). now apply supported_in.
  - destruct (gemet_load_thesaurus_adds accepts g name defaultlang store lower_case
                input_file w) as ((added & Hdb & Hall) & _).
    exists added. split; [exact Hdb|].
    intros tkl Hin. rewrite Forall_forall in Hall.
    destruct (Hall _ Hin) as [_ Hl]. split; [|exact Hl].
    destruct Hl as (c & ls & p & l & tag & _ & _ & _ & _ & _ & Hs & _).
    now apply supported_in.
Qed.

(** ** Case folding and the thesaurus row *)

(** C10.  With [--force-lower-case] on, a persisted [Thesaurus] row still
    has its title, description, about and date as the graph gives them; the
    folding is on the [about] and [alt_label] of a [ThesaurusKeyword] and on
    the [lang] and [label] of a [ThesaurusKeywordLabel]. *)
Theorem thesaurus_row_not_folded
  (accepts : Sink) (g : Graph) (w : World)
  (input_file name title description defaultlang : string) (store : bool) :
  (exists added,
      db (fst (Agrovoc.load_thesaurus accepts g input_file name store title description
                 defaultlang true w)) = (db w ++ added)%list
      /\ Forall (fun row =>
           match row with
           | RThesaurus t => agrovoc_thesaurus g name defaultlang t
           | RKeyword tk =>
               agrovoc_thesaurus g name defaultlang (ThesaurusKeyword.thesaurus tk)
               /\ exists concept alt_label,
                    Agrovoc.get_default_language_preflabel g concept defaultlang
                    = Some alt_label
                    /\ ThesaurusKeyword.about tk = lower concept
                    /\ ThesaurusKeyword.alt_label tk = lower alt_label
           | RLabel tkl =>
               exists target tag,
                 language (literal_form g target) = Some tag
                 /\ ThesaurusKeywordLabel.lang tkl = lower tag
                 /\ ThesaurusKeywordLabel.label tkl = lower (lexical (literal_form g target))
           end) added)
  /\ (exists added,
         db (fst (Gemet.load_thesaurus accepts g input_file name defaultlang store true w))
         = (db w ++ added)%list
         /\ Forall (fun row =>
              match row with
              | RThesaurus t => gemet_thesaurus g name defaultlang t
              | RKeyword tk =>
                  gemet_thesaurus g name defaultlang (ThesaurusKeyword.thesaurus tk)
                  /\ exists concept labelProp l_ rest,
                       Gemet.preferredLabel g concept (Some defaultlang) None
                         Gemet.default_label_properties = inr ((labelProp, l_) :: rest)
                       /\ ThesaurusKeyword.about tk = lower concept
                       /\ ThesaurusKeyword.alt_label tk = lower (term_str l_)
              | RLabel tkl =>
                  exists l tag,
                    language l = Some tag
                    /\ ThesaurusKeywordLabel.lang tkl = lower tag
                    /\ ThesaurusKeywordLabel.label tkl = lower (lexical l)
              end) added).
Proof.
  split.
  - destruct (agrovoc_load_thesaurus_adds accepts g name defaultlang store true
                input_file title description w) as ((added & Hdb & Hall) & _).
    exists added. split; [exact Hdb|].
    eapply Forall_impl; [|exact Hall].
    intros [t|tk|tkl] [_ H]; auto.
    + destruct H as (concept & Ht & _ & alt & Halt & Ha & Hl).
      split; [exact Ht|]. now exists concept, alt.
    + destruct H as (concept & target & tag & _ & _ & Htag & Hlang & _ & Hlabel).
      now exists target, tag.
  - destruct (gemet_load_thesaurus_adds accepts g name defaultlang store true
                input_file w) as ((added & Hdb & Hall) & _).
    exists added. split; [exact Hdb|].
    eapply Forall_impl; [|exact Hall].
    intros [t|tk|tkl] [_ H]; auto.
    + destruct H as (concept & Ht & _ & p & l_ & rest & Hp & Ha & Hl).
      split; [exact Ht|]. now exists concept, p, l_, rest.
    + destruct H as (concept & ls & p & l & tag & _ & _ & _ & Htag & Hlang & _ & Hlabel).
      now exists l, tag.
Qed.

(** ** The runs on the sample inputs *)

(** C4, the defect.  [c_Water] has no English label.  Both loaders skip it
    and go on to [c_Tree], and the run ends well; but nothing is written
    about [c_Water]: the AGROVOC loader leaves the loop body before the branch
    that writes the error, the GEMET loader builds the styled message and
    never writes it. *)
Theorem skipped_concept_is_not_logged :
  (Agrovoc.get_default_language_preflabel agrovoc_sample
     "http://aims.fao.org/aos/agrovoc/c_Water" "en" = None
   /\ snd (agrovoc_run accept_all false) = inr tt
   /\ out (fst (agrovoc_run accept_all false))
      = [Stderr SUCCESS "Starting to parsed file: agrovoc.rdf ...";
         Stderr SUCCESS "Successful parsed file: agrovoc.rdf ...";
         Stderr SUCCESS
           ("Thesaurus " ++ dquote ++ "AGROVOC" ++ dquote
            ++ ", desc: 2022-04-04T13:50:00Z issued at 2022-04-04T13:50:00");
         Stderr SUCCESS " set alt_label: Soil: (1)";
         Stderr SUCCESS " set alt_label: Tree: (2)"])
  /\ (Gemet.pref_of gemet_sample "http://example.org/c_Water" "en" false = inl IndexError
      /\ snd (gemet_run accept_all false) = inr tt
      /\ out (fst (gemet_run accept_all false))
         = [Stderr SUCCESS " using defaultlang: en ...";
            Stderr SUCCESS
              ("Thesaurus " ++ dquote ++ "Sample" ++ dquote
               ++ ", desc: Sample issued at 2024-01-01");
            Stderr SUCCESS "Concept: Soil (http://example.org/c_Soil)";
            Stderr SUCCESS "  Label en: Soil";
            Stderr SUCCESS "Concept: Tree (http://example.org/c_Tree)";
            Stderr SUCCESS "  Label en: Tree";
            Stderr SUCCESS "  Label fr: Arbre"]).
Proof. repeat split; vm_compute; reflexivity. Qed.

(** No run of either loader writes an error for a skipped concept: the
    AGROVOC loader writes errors for refused labels only, the GEMET loader
    writes no error at all. *)
Lemma error_lines_are_label_refusals
  (accepts : Sink) (g : Graph) (w : World)
  (input_file name title description defaultlang : string) (store lower_case : bool) :
  extends (agrovoc_line store) (out w)
    (out (fst (Agrovoc.load_thesaurus accepts g input_file name store title description
                 defaultlang lower_case w)))
  /\ extends gemet_line (out w)
       (out (fst (Gemet.load_thesaurus accepts g input_file name defaultlang store
                    lower_case w))).
Proof.
  split.
  - apply (agrovoc_load_thesaurus_adds accepts g name defaultlang store lower_case
             input_file title description w).
  - apply (gemet_load_thesaurus_adds accepts g name defaultlang store lower_case
             input_file w).
Qed.

(** C9, the defect.  The scheme of the sample has no [dc:description].  The
    persisted description is the resolved title (the untagged modification
    date, which the selector prefers), with [--description] given and with
    its default: the argument is overwritten before it is read. *)
Theorem description_option_is_ignored :
  value agrovoc_sample (TNode AGROVOC_ConceptSchemeURI) DC_description = None
  /\ hd_error (db (fst (Agrovoc.handle accept_all agrovoc_sample
                          (Agrovoc.mkOptions (Some "agrovoc.rdf") (Some "agrovoc") false
                             "AGROVOC" "my description" false "en")
                          empty_world)))
     = Some (RThesaurus
               {| Thesaurus.identifier := "agrovoc";
                  Thesaurus.title := "2022-04-04T13:50:00Z";
                  Thesaurus.description := "2022-04-04T13:50:00Z";
                  Thesaurus.about := "http://aims.fao.org/aos/agrovoc";
                  Thesaurus.date := "2022-04-04T13:50:00" |})
  /\ hd_error (db (fst (Agrovoc.handle accept_all agrovoc_sample
                          (Agrovoc.default_options "en" "agrovoc.rdf" "agrovoc")
                          empty_world)))
     = Some (RThesaurus
               {| Thesaurus.identifier := "agrovoc";
                  Thesaurus.title := "2022-04-04T13:50:00Z";
                  Thesaurus.description := "2022-04-04T13:50:00Z";
                  Thesaurus.about := "http://aims.fao.org/aos/agrovoc";
                  Thesaurus.date := "2022-04-04T13:50:00" |}).
Proof. repeat split; vm_compute; reflexivity. Qed.

(** No run reads [--description]: two command lines that differ in it only
    are one run. *)
Lemma description_option_is_dead
  (accepts : Sink) (g : Graph) (input_file name title defaultlang : string)
  (store lower_case : bool) (description1 description2 : string) :
  Agrovoc.load_thesaurus accepts g input_file name store title description1
    defaultlang lower_case
  = Agrovoc.load_thesaurus accepts g input_file name store title description2
      defaultlang lower_case.
Proof. reflexivity. Qed.

(** C6 as the specification words it fails: ["DE"] is not a supported
    language, and with folding on both loaders persist a label of the literal
    ["Boden"@DE], as language ["de"]. *)
Lemma uppercase_tag_label_persisted_counterexample :
  ~ In "DE" SUPPORTED_LANGUAGES
  /\ literal_form agrovoc_sample (TNode "xl_de_soil") = mkLiteral "Boden" (Some "DE") None
  /\ In (TNode "xl_de_soil")
       (objects agrovoc_sample (TNode "http://aims.fao.org/aos/agrovoc/c_Soil")
          (Some SKOS_XL.prefLabel))
  /\ In agrovoc_boden_row (db (fst (agrovoc_run accept_all true)))
  /\ In (TLit (mkLiteral "Boden" (Some "DE") None))
       (objects gemet_sample (TNode "http://example.org/c_Soil") (Some SKOS_prefLabel))
  /\ In gemet_boden_row (db (fst (gemet_run accept_all true))).
Proof.
  split; [|split; [|split; [|split; [|split]]]].
  - unfold SUPPORTED_LANGUAGES. intros [H|[H|[H|[H|[H|[]]]]]]; discriminate.
  - reflexivity.
  - vm_compute. right. left. reflexivity.
  - vm_compute. do 3 right. left. reflexivity.
  - vm_compute. right. left. reflexivity.
  - vm_compute. do 3 right. left. reflexivity.
Qed.


(** C5 as the specification words it fails.  GEMET: the sink refuses the
    English labels; the French label of [c_Tree], which it would take, is
    never submitted, for the refusal of ["Tree"@en] ends the label loop of
    the concept.  AGROVOC: the sink refuses the keyword of [c_Soil]; the
    exception leaves the command, and [c_Tree] is never reached. *)
Lemma save_failure_isolation_counterexample :
  (forall rows tkl,
      ThesaurusKeywordLabel.lang tkl = "fr" ->
      refuse_label_lang "en" rows (RLabel tkl) = true)
  /\ snd (gemet_run (refuse_label_lang "en") false) = inr tt
  /\ selected_pairs (saves (fst (gemet_run (refuse_label_lang "en") false)))
     = [("http://example.org/c_Soil", "en"); ("http://example.org/c_Tree", "en")]
  /\ selected_pairs (saves (fst (gemet_run accept_all false)))
     = [("http://example.org/c_Soil", "en"); ("http://example.org/c_Tree", "en");
        ("http://example.org/c_Tree", "fr")]
  /\ snd (agrovoc_run (refuse_keyword_about "http://aims.fao.org/aos/agrovoc/c_Soil") false)
     = inl IntegrityError
  /\ selected_pairs
       (saves (fst (agrovoc_run
                      (refuse_keyword_about "http://aims.fao.org/aos/agrovoc/c_Soil") false)))
     = []
  /\ selected_pairs (saves (fst (agrovoc_run accept_all false)))
     = [("http://aims.fao.org/aos/agrovoc/c_Soil", "en");
        ("http://aims.fao.org/aos/agrovoc/c_Tree", "en");
        ("http://aims.fao.org/aos/agrovoc/c_Tree", "fr")].
Proof.
  split.
  - intros rows tkl H. unfold refuse_label_lang. now rewrite H.
  - repeat split; vm_compute; reflexivity.
Qed.

(** The thesaurus row of a folding run keeps its upper case. *)
Example thesaurus_row_keeps_case :
  hd_error (db (fst (gemet_run accept_all true)))
  = Some (RThesaurus
            {| Thesaurus.identifier := "gemet";
               Thesaurus.title := "Sample";
               Thesaurus.description := "Sample";
               Thesaurus.about := "http://example.org/scheme";
               Thesaurus.date := "2024-01-01" |}).
Proof. reflexivity. Qed.

(** ** Refused saves *)

Ltac count_rows :=
  unfold notices, errors, keyword_rows in *; simpl in *;
  rewrite ?filter_app, ?length_app in *; simpl in *;
  rewrite ?app_nil_r, ?Nat.add_0_r in *; repeat split; auto; try lia.

Section GemetRefusals.
Variable accepts : Sink.
Variable g : Graph.

(** One label: a refusal raises with one save not yet accounted for. *)
Lemma gemet_label_step_balance (store lower_case : bool) (tk : ThesaurusKeyword.t) (pref_label : Term) (w : World) :
  let w' := fst (Gemet.label_step accepts store lower_case tk pref_label w) in
  keyword_rows (saves w') = keyword_rows (saves w)
  /\ notices w' = notices w
  /\ match snd (Gemet.label_step accepts store lower_case tk pref_label w) with
     | inr _ => length (saves w') + length (db w) = length (saves w) + length (db w')
     | inl _ => length (saves w') + length (db w) <= length (saves w) + length (db w') + 1
     end.
Proof.
  unfold Gemet.label_step, bind, lift, Gemet.term_language, __apply_lower_case__opt.
  destruct pref_label as [u|l]; simpl; [count_rows|].
  destruct (language l) as [tag|]; destruct lower_case; simpl; try (count_rows; fail).
  - destruct (supported (lower tag)); simpl; [|count_rows].
    unfold save_if, save. destruct store; simpl; [|count_rows].
    destruct (accepts (db w) _); simpl; count_rows.
  - destruct (supported tag); simpl; [|count_rows].
    unfold save_if, save. destruct store; simpl; [|count_rows].
    destruct (accepts (db w) _); simpl; count_rows.
Qed.

Lemma gemet_label_loop_balance (store lower_case : bool) (tk : ThesaurusKeyword.t) (labels : list Term) (w : World) :
  let w' := fst (for_each labels (Gemet.label_step accepts store lower_case tk) w) in
  keyword_rows (saves w') = keyword_rows (saves w)
  /\ notices w' = notices w
  /\ match snd (for_each labels (Gemet.label_step accepts store lower_case tk) w) with
     | inr _ => length (saves w') + length (db w) = length (saves w) + length (db w')
     | inl _ => length (saves w') + length (db w) <= length (saves w) + length (db w') + 1
     end.
Proof.
  revert w. induction labels as [|x rest IH]; intros w; simpl.
  - auto.
  - unfold bind.
    pose proof (gemet_label_step_balance store lower_case tk x w) as Hx. simpl in Hx.
    destruct (Gemet.label_step accepts store lower_case tk x w) as [w1 [e|[]]];
      simpl in *; [exact Hx|].
    destruct Hx as (Hk & Hn & Hb).
    specialize (IH w1). simpl in IH. destruct IH as (Hk' & Hn' & Hb').
    rewrite Hk', Hn', Hk, Hn. split; [reflexivity|]. split; [reflexivity|].
    destruct (snd (for_each rest (Gemet.label_step accepts store lower_case tk) w1)); lia.
Qed.

(** One concept: the step always returns, it submits the keyword of the
    concept whatever the sink does, and every save it saw refused is covered
    by a printed notice. *)
Lemma gemet_concept_step_isolated (store lower_case : bool) (thesaurus : Thesaurus.t) (defaultlang concept : string)
  (w : World) :
  let w' := fst (Gemet.concept_step accepts g thesaurus store defaultlang lower_case
                   concept w) in
  snd (Gemet.concept_step accepts g thesaurus store defaultlang lower_case concept w)
  = inr tt
  /\ keyword_rows (saves w')
     = (keyword_rows (saves w)
        ++ gemet_expected_keyword g thesaurus store defaultlang lower_case concept)%list
  /\ length (saves w') + length (db w) + notices w
     <= length (saves w) + length (db w') + notices w'.
Proof.
  unfold Gemet.concept_step, gemet_expected_keyword.
  destruct (Gemet.pref_of g concept defaultlang lower_case) as [e|pref]; simpl.
  { count_rows. }
  unfold bind at 1. simpl. unfold try_except, bind, save_if, save, lift, print.
  destruct store; simpl.
  - destruct (accepts (db w) _); simpl; [|count_rows].
    destruct (Gemet.preferredLabel g concept None None Gemet.default_label_properties)
      as [e|labels]; simpl; [count_rows|].
    match goal with
    | |- context [for_each ?l ?f ?w0] =>
        generalize (gemet_label_loop_balance true lower_case
                      {| ThesaurusKeyword.thesaurus := thesaurus;
                         ThesaurusKeyword.about := __apply_lower_case__ concept lower_case;
                         ThesaurusKeyword.alt_label := pref |} l w0);
        cbv zeta;
        change (for_each l
                  (Gemet.label_step accepts true lower_case
                     {| ThesaurusKeyword.thesaurus := thesaurus;
                        ThesaurusKeyword.about := __apply_lower_case__ concept lower_case;
                        ThesaurusKeyword.alt_label := pref |}) w0)
          with (for_each l f w0);
        generalize (for_each l f w0); intros [w1 [e|[]]]
    end; simpl; intros (Hk & Hn & Hb); rewrite Hk; count_rows.
  - destruct (Gemet.preferredLabel g concept None None Gemet.default_label_properties)
      as [e|labels]; simpl; [count_rows|].
    match goal with
    | |- context [for_each ?l ?f ?w0] =>
        generalize (gemet_label_loop_balance false lower_case
                      {| ThesaurusKeyword.thesaurus := thesaurus;
                         ThesaurusKeyword.about := __apply_lower_case__ concept lower_case;
                         ThesaurusKeyword.alt_label := pref |} l w0);
        cbv zeta;
        change (for_each l
                  (Gemet.label_step accepts false lower_case
                     {| ThesaurusKeyword.thesaurus := thesaurus;
                        ThesaurusKeyword.about := __apply_lower_case__ concept lower_case;
                        ThesaurusKeyword.alt_label := pref |}) w0)
          with (for_each l f w0);
        generalize (for_each l f w0); intros [w1 [e|[]]]
    end; simpl; intros (Hk & Hn & Hb); rewrite Hk; count_rows.
Qed.

Lemma gemet_concept_loop_isolated (store lower_case : bool) (thesaurus : Thesaurus.t) (defaultlang : string)
  (concepts : list string) (w : World) :
  let run := for_each concepts
               (Gemet.concept_step accepts g thesaurus store defaultlang lower_case) w in
  snd run = inr tt
  /\ keyword_rows (saves (fst run))
     = (keyword_rows (saves w)
        ++ flat_map (gemet_expected_keyword g thesaurus store defaultlang lower_case)
             concepts)%list
  /\ length (saves (fst run)) + length (db w) + notices w
     <= length (saves w) + length (db (fst run)) + notices (fst run).
Proof.
  revert w. induction concepts as [|c rest IH]; intros w; simpl.
  - rewrite app_nil_r. auto.
  - unfold bind.
    pose proof (gemet_concept_step_isolated store lower_case thesaurus defaultlang c w) as Hc.
    simpl in Hc.
    destruct (Gemet.concept_step accepts g thesaurus store defaultlang lower_case c w)
      as [w1 r]. simpl in Hc. destruct Hc as (-> & Hk & Hb).
    specialize (IH w1). simpl in IH. destruct IH as (Hr & Hk' & Hb').
    split; [exact Hr|]. split; [|lia].
    now rewrite Hk', Hk, app_assoc.
Qed.
End GemetRefusals.

(** The GEMET command as a whole, against a sink that takes the thesaurus
    row. *)
Lemma gemet_load_thesaurus_isolated (accepts : Sink) (g : Graph) (w : World)
  (input_file name defaultlang : string) (store lower_case : bool) :
  (forall rows t, accepts rows (RThesaurus t) = true) ->
  let run := Gemet.load_thesaurus accepts g input_file name defaultlang store lower_case w in
  let run_all :=
    Gemet.load_thesaurus accept_all g input_file name defaultlang store lower_case w in
  snd run = snd run_all
  /\ keyword_rows (saves (fst run)) = keyword_rows (saves (fst run_all))
  /\ (length (saves w) <= length (db w) + notices w ->
      length (saves (fst run)) <= length (db (fst run)) + notices (fst run)).
Proof.
  intros H. unfold Gemet.load_thesaurus, bind, lift, stderr_write, raise. cbv beta iota.
  destruct (value_subject_unique g RDF_type (TNode SKOS_ConceptScheme)) as [e|[scheme|]];
    cbv beta iota; try (count_rows; fail).
  destruct (value_for_language (literals_only (objects g (TNode scheme) None)) defaultlang)
    as [e|thesaurus_title]; cbv beta iota; try (count_rows; fail).
  unfold save_if, save, accept_all, ret.
  destruct store; cbv beta iota; [rewrite H; cbv beta iota|].
  all: repeat match goal with
       | |- context [for_each ?cs (Gemet.concept_step ?acc ?gg ?th ?st ?dl ?lc) ?w0] =>
           generalize (gemet_concept_loop_isolated acc gg st lc th dl cs w0); cbv zeta;
           generalize (for_each cs (Gemet.concept_step acc gg th st dl lc) w0);
           intros [? ?] (? & ? & ?)
       end.
  all: simpl in *; subst; split; [reflexivity|]; split; [congruence|]; count_rows.
Qed.

(** ** Refused saves in the AGROVOC loader *)

Section AgrovocRefusals.
Variable accepts : Sink.
Hypothesis accepts_thesaurus : forall rows t, accepts rows (RThesaurus t) = true.
Hypothesis accepts_keyword : forall rows tk, accepts rows (RKeyword tk) = true.

Lemma same_saves_stderr_write (msg : string) :
  sim same_saves (stderr_write SUCCESS msg) (stderr_write SUCCESS msg).
Proof. intros w1 w2 H. now split. Qed.

Lemma same_saves_thesaurus (store : bool) (t : Thesaurus.t) :
  sim same_saves (save_if store accepts (RThesaurus t))
    (save_if store accept_all (RThesaurus t)).
Proof.
  intros w1 w2 H. unfold save_if, save, same_saves, accept_all in *.
  destruct store; simpl; [|now split].
  rewrite accepts_thesaurus. simpl. now rewrite H.
Qed.

Lemma same_saves_keyword (store : bool) (tk : ThesaurusKeyword.t) :
  sim same_saves (save_if store accepts (RKeyword tk))
    (save_if store accept_all (RKeyword tk)).
Proof.
  intros w1 w2 H. unfold save_if, save, same_saves, accept_all in *.
  destruct store; simpl; [|now split].
  rewrite accepts_keyword. simpl. now rewrite H.
Qed.

Lemma same_saves_label (store : bool) (tkl : ThesaurusKeywordLabel.t) (msg : string) :
  sim same_saves
    (if store then try_except (save accepts (RLabel tkl)) (stderr_write ERROR msg)
     else ret tt)
    (if store then try_except (save accept_all (RLabel tkl)) (stderr_write ERROR msg)
     else ret tt).
Proof.
  intros w1 w2 H. unfold try_except, save, same_saves, accept_all in *.
  destruct store; simpl; [|now split].
  destruct (accepts (db w1) (RLabel tkl)); simpl; now rewrite H.
Qed.

Lemma both_balanced_stderr_write (msg : string) :
  sim both_balanced (stderr_write SUCCESS msg) (stderr_write SUCCESS msg).
Proof.
  intros w1 w2 [<- H]. unfold both_balanced, balanced in *. repeat split. count_rows.
Qed.

Lemma both_balanced_thesaurus (store : bool) (t : Thesaurus.t) :
  sim both_balanced (save_if store accepts (RThesaurus t))
    (save_if store accepts (RThesaurus t)).
Proof.
  intros w1 w2 [<- H]. unfold both_balanced, balanced, save_if, save in *.
  destruct store; simpl; [|now repeat split].
  rewrite accepts_thesaurus. repeat split. count_rows.
Qed.

Lemma both_balanced_keyword (store : bool) (tk : ThesaurusKeyword.t) :
  sim both_balanced (save_if store accepts (RKeyword tk))
    (save_if store accepts (RKeyword tk)).
Proof.
  intros w1 w2 [<- H]. unfold both_balanced, balanced, save_if, save in *.
  destruct store; simpl; [|now repeat split].
  rewrite accepts_keyword. repeat split. count_rows.
Qed.

Lemma both_balanced_label (store : bool) (tkl : ThesaurusKeywordLabel.t) (msg : string) :
  sim both_balanced
    (if store then try_except (save accepts (RLabel tkl)) (stderr_write ERROR msg)
     else ret tt)
    (if store then try_except (save accepts (RLabel tkl)) (stderr_write ERROR msg)
     else ret tt).
Proof.
  intros w1 w2 [<- H]. unfold both_balanced, balanced, try_except, save in *.
  destruct store; simpl; [|now repeat split].
  destruct (accepts (db w1) (RLabel tkl)); simpl; repeat split; count_rows.
Qed.

(** The AGROVOC command against a sink that refuses labels only: it calls
    [save()] on the rows, and ends as, the run that nothing is refused to,
    and every refusal has its error line. *)
Lemma agrovoc_load_thesaurus_isolated (g : Graph) (w : World)
  (input_file name title description defaultlang : string) (store lower_case : bool) :
  let run := Agrovoc.load_thesaurus accepts g input_file name store title description
               defaultlang lower_case w in
  let run_all := Agrovoc.load_thesaurus accept_all g input_file name store title
                   description defaultlang lower_case w in
  snd run = snd run_all
  /\ saves (fst run) = saves (fst run_all)
  /\ (balanced w -> balanced (fst run)).
Proof.
  intros run run_all.
  destruct (agrovoc_load_thesaurus_sim same_saves accepts accept_all store store g
              same_saves_stderr_write (same_saves_thesaurus store)
              (same_saves_keyword store) (same_saves_label store)
              input_file name title description defaultlang lower_case w w eq_refl)
    as [Hs Hr].
  split; [exact Hr|]. split; [exact Hs|].
  intros Hb.
  destruct (agrovoc_load_thesaurus_sim both_balanced accepts accepts store store g
              both_balanced_stderr_write (both_balanced_thesaurus store)
              (both_balanced_keyword store) (both_balanced_label store)
              input_file name title description defaultlang lower_case w w
              (conj eq_refl Hb))
    as [[_ Hb'] _].
  exact Hb'.
Qed.
End AgrovocRefusals.

(** ** The rows the GEMET loader submits *)

Lemma gemet_label_step_rows (accepts : Sink) (lower_case : bool)
  (tk : ThesaurusKeyword.t) (l : Term) (rest : list Term) (w : World) :
  let step := Gemet.label_step accepts true lower_case tk l w in
  let rows := gemet_label_rows lower_case tk in
  match snd step with
  | inr _ =>
      (saves (fst step) ++ submitted_until_refused accepts (db (fst step)) (rows rest)
       = saves w ++ submitted_until_refused accepts (db w) (rows (l :: rest)))%list
      /\ (db (fst step) ++ persisted_until_refused accepts (db (fst step)) (rows rest)
          = db w ++ persisted_until_refused accepts (db w) (rows (l :: rest)))%list
  | inl _ =>
      (saves (fst step)
       = saves w ++ submitted_until_refused accepts (db w) (rows (l :: rest)))%list
      /\ (db (fst step)
          = db w ++ persisted_until_refused accepts (db w) (rows (l :: rest)))%list
  end.
Proof.
  cbv zeta. cbn [gemet_label_rows].
  unfold Gemet.label_step, Gemet.term_language, bind, lift, ret.
  destruct l as [u|l]; cbv beta iota.
  { cbn. now rewrite !app_nil_r. }
  unfold __apply_lower_case__opt, __apply_lower_case__.
  destruct (language l) as [tag|], lower_case; cbv beta iota; cbn [fst snd term_str].
  - destruct (supported (lower tag)); cbv beta iota; cbn [fst snd]; [|now split].
    unfold stderr_write, save_if, save. cbn [db saves out].
    cbn [submitted_until_refused persisted_until_refused].
    destruct (accepts (db w) _); cbv beta iota; cbn [fst snd db saves].
    + now rewrite <- !app_assoc.
    + now rewrite app_nil_r.
  - destruct (supported tag); cbv beta iota; cbn [fst snd]; [|now split].
    unfold stderr_write, save_if, save. cbn [db saves out].
    cbn [submitted_until_refused persisted_until_refused].
    destruct (accepts (db w) _); cbv beta iota; cbn [fst snd db saves].
    + now rewrite <- !app_assoc.
    + now rewrite app_nil_r.
  - cbn. now rewrite !app_nil_r.
  - now split.
Qed.

Lemma gemet_label_loop_rows (accepts : Sink) (lower_case : bool)
  (tk : ThesaurusKeyword.t) (labels : list Term) (w : World) :
  let run := for_each labels (Gemet.label_step accepts true lower_case tk) w in
  saves (fst run)
  = (saves w
     ++ submitted_until_refused accepts (db w) (gemet_label_rows lower_case tk labels))%list
  /\ db (fst run)
     = (db w
        ++ persisted_until_refused accepts (db w) (gemet_label_rows lower_case tk labels))%list.
Proof.
  cbv zeta. revert w. induction labels as [|l rest IH]; intros w.
  - cbn. now rewrite !app_nil_r.
  - cbn [for_each]. unfold bind.
    generalize (gemet_label_step_rows accepts lower_case tk l rest w). cbv zeta.
    destruct (Gemet.label_step accepts true lower_case tk l w) as [w1 [e|u]];
      cbn [fst snd]; intros [Hs Hd]; [now split|].
    destruct (IH w1) as [Is Id]. rewrite Is, Id. now split.
Qed.

(** One concept: the keyword, then its labels, until the sink refuses a row. *)
Lemma gemet_concept_step_rows (accepts : Sink) (g : Graph) (thesaurus : Thesaurus.t)
  (defaultlang : string) (lower_case : bool) (concept : string) (w : World) :
  let step := Gemet.concept_step accepts g thesaurus true defaultlang lower_case concept w in
  let rows := gemet_concept_rows g thesaurus defaultlang lower_case concept in
  snd step = inr tt
  /\ saves (fst step) = (saves w ++ submitted_until_refused accepts (db w) rows)%list
  /\ db (fst step) = (db w ++ persisted_until_refused accepts (db w) rows)%list.
Proof.
  cbv zeta. unfold Gemet.concept_step, gemet_concept_rows.
  destruct (Gemet.pref_of g concept defaultlang lower_case) as [e|pref]; cbv zeta.
  { cbn. now rewrite !app_nil_r. }
  cbn [submitted_until_refused persisted_until_refused].
  unfold bind at 1 2 3. unfold stderr_write at 1 2 3. cbv beta iota.
  unfold try_except, bind, save_if, save, print. cbn [db saves out].
  destruct (accepts (db w) _); cbv beta iota; cbn [fst snd db saves];
    [|now rewrite ?app_nil_r].
  unfold lift.
  destruct (Gemet.preferredLabel g concept None None Gemet.default_label_properties)
    as [e|labels]; cbv beta iota; cbn [fst snd db saves].
  { cbn [submitted_until_refused persisted_until_refused]. repeat split. }
  match goal with
  | |- context [for_each ?ls (Gemet.label_step ?a true ?lc ?tk) ?w0] =>
      generalize (gemet_label_loop_rows a lc tk ls w0); cbv zeta;
      destruct (for_each ls (Gemet.label_step a true lc tk) w0) as [w1 [e|[]]]
  end; cbn [fst snd db saves]; intros [Hs Hd]; rewrite Hs, Hd, <- !app_assoc;
    repeat split.
Qed.

Lemma gemet_concept_loop_rows (accepts : Sink) (g : Graph) (thesaurus : Thesaurus.t)
  (defaultlang : string) (lower_case : bool) (concepts : list string) (w : World) :
  let run :=
    for_each concepts (Gemet.concept_step accepts g thesaurus true defaultlang lower_case)
      w in
  let groups := map (gemet_concept_rows g thesaurus defaultlang lower_case) concepts in
  snd run = inr tt
  /\ saves (fst run) = (saves w ++ submitted_by_group accepts (db w) groups)%list
  /\ db (fst run) = (db w ++ persisted_by_group accepts (db w) groups)%list.
Proof.
  cbv zeta. revert w. induction concepts as [|c rest IH]; intros w.
  - cbn. now rewrite !app_nil_r.
  - cbn [for_each map submitted_by_group persisted_by_group]. unfold bind.
    generalize (gemet_concept_step_rows accepts g thesaurus defaultlang lower_case c w).
    cbv zeta.
    destruct (Gemet.concept_step accepts g thesaurus true defaultlang lower_case c w)
      as [w1 [e|u]]; cbn [fst snd]; intros (Hr & Hs & Hd); [discriminate|].
    destruct (IH w1) as (Ir & Is & Id). rewrite Ir, Is, Id, Hs, Hd, <- !app_assoc.
    repeat split.
Qed.

(** The storing GEMET run, once the thesaurus row is taken. *)
Lemma gemet_load_thesaurus_rows (accepts : Sink) (g : Graph) (w : World)
  (input_file name defaultlang : string) (lower_case : bool) (thesaurus : Thesaurus.t) :
  (forall rows t, accepts rows (RThesaurus t) = true) ->
  gemet_thesaurus g name defaultlang thesaurus ->
  let run := Gemet.load_thesaurus accepts g input_file name defaultlang true lower_case w in
  let groups :=
    map (gemet_concept_rows g thesaurus defaultlang lower_case)
      (subjects g RDF_type (TNode SKOS_Concept)) in
  saves (fst run)
  = (saves w
     ++ RThesaurus thesaurus
        :: submitted_by_group accepts (db w ++ [RThesaurus thesaurus]) groups)%list
  /\ db (fst run)
     = (db w
        ++ RThesaurus thesaurus
           :: persisted_by_group accepts (db w ++ [RThesaurus thesaurus]) groups)%list.
Proof.
  intros Ht (scheme & title & Hscheme & Htitle & ->). cbv zeta.
  unfold Gemet.load_thesaurus, bind, lift, stderr_write. cbv beta iota.
  rewrite Hscheme. cbv beta iota. rewrite Htitle. cbv beta iota.
  unfold save_if, save. cbn [db saves out]. rewrite Ht. cbv beta iota.
  match goal with
  | |- context [for_each ?cs (Gemet.concept_step ?a ?gg ?th true ?dl ?lc) ?w0] =>
      generalize (gemet_concept_loop_rows a gg th dl lc cs w0); cbv zeta;
      destruct (for_each cs (Gemet.concept_step a gg th true dl lc) w0) as [w1 r]
  end.
  cbn [fst snd db saves]. intros (_ & Hs & Hd). rewrite Hs, Hd, <- !app_assoc.
  split; reflexivity.
Qed.

(** C5, as the code has it.  Against a sink that takes the thesaurus row:
    the GEMET command ends as it would with nothing refused, the keyword of
    every concept is still submitted, and every refused save is covered by a
    printed notice; a storing GEMET run calls [save()], after the thesaurus,
    on the keyword of each concept and then on its labels in their order, up
    to and including the first row of the concept that the sink refuses, and
    on none of the labels after it, and it persists the rows before that one;
    and when the sink takes the keyword rows too, the AGROVOC command ends
    as it would with nothing refused, it calls [save()] on the very same
    rows, and every refused label has its error line. *)
Theorem save_failures_do_not_stop_the_run
  (accepts : Sink) (g : Graph) (w : World)
  (input_file name title description defaultlang : string) (store lower_case : bool) :
  (forall rows t, accepts rows (RThesaurus t) = true) ->
  let gemet :=
    Gemet.load_thesaurus accepts g input_file name defaultlang store lower_case w in
  let gemet_all :=
    Gemet.load_thesaurus accept_all g input_file name defaultlang store lower_case w in
  let gemet_storing :=
    Gemet.load_thesaurus accepts g input_file name defaultlang true lower_case w in
  let agrovoc :=
    Agrovoc.load_thesaurus accepts g input_file name store title description
      defaultlang lower_case w in
  let agrovoc_all :=
    Agrovoc.load_thesaurus accept_all g input_file name store title description
      defaultlang lower_case w in
  (snd gemet = snd gemet_all
   /\ keyword_rows (saves (fst gemet)) = keyword_rows (saves (fst gemet_all))
   /\ (length (saves w) <= length (db w) + notices w ->
       length (saves (fst gemet)) <= length (db (fst gemet)) + notices (fst gemet))
   /\ (forall thesaurus,
         gemet_thesaurus g name defaultlang thesaurus ->
         let groups :=
           map (gemet_concept_rows g thesaurus defaultlang lower_case)
             (subjects g RDF_type (TNode SKOS_Concept)) in
         saves (fst gemet_storing)
         = (saves w
            ++ RThesaurus thesaurus
               :: submitted_by_group accepts (db w ++ [RThesaurus thesaurus]) groups)%list
         /\ db (fst gemet_storing)
            = (db w
               ++ RThesaurus thesaurus
                  :: persisted_by_group accepts (db w ++ [RThesaurus thesaurus])
                       groups)%list))
  /\ ((forall rows tk, accepts rows (RKeyword tk) = true) ->
      snd agrovoc = snd agrovoc_all
      /\ saves (fst agrovoc) = saves (fst agrovoc_all)
      /\ (balanced w -> balanced (fst agrovoc))).
Proof.
  intros Ht gemet gemet_all gemet_storing agrovoc agrovoc_all. split.
  - destruct (gemet_load_thesaurus_isolated accepts g w input_file name defaultlang store
                lower_case Ht) as (Hr & Hk & Hb).
    split; [exact Hr|]. split; [exact Hk|]. split; [exact Hb|].
    intros thesaurus Hth.
    exact (gemet_load_thesaurus_rows accepts g w input_file name defaultlang lower_case
             thesaurus Ht Hth).
  - intros Hk. now apply agrovoc_load_thesaurus_isolated.
Qed.

(** The theorem on [plain_sample], against a sink that refuses the English
    labels: the storing GEMET run submits the thesaurus, the keyword of
    [c_Tree] and its English label, and the French label not at all. *)
Lemma save_failures_do_not_stop_the_run_witness :
  (forall rows t, refuse_label_lang "en" rows (RThesaurus t) = true)
  /\ (forall rows tk, refuse_label_lang "en" rows (RKeyword tk) = true)
  /\ snd (Gemet.load_thesaurus (refuse_label_lang "en") plain_sample "agrovoc.rdf"
            "agrovoc" "en" true false empty_world)
     = snd (Gemet.load_thesaurus accept_all plain_sample "agrovoc.rdf" "agrovoc" "en"
              true false empty_world)
  /\ keyword_rows
       (saves (fst (Gemet.load_thesaurus (refuse_label_lang "en") plain_sample
                      "agrovoc.rdf" "agrovoc" "en" true false empty_world)))
     = keyword_rows
         (saves (fst (Gemet.load_thesaurus accept_all plain_sample "agrovoc.rdf"
                        "agrovoc" "en" true false empty_world)))
  /\ saves (fst (Gemet.load_thesaurus (refuse_label_lang "en") plain_sample
                   "agrovoc.rdf" "agrovoc" "en" true false empty_world))
     = (saves empty_world
        ++ RThesaurus plain_thesaurus
           :: submitted_by_group (refuse_label_lang "en")
                (db empty_world ++ [RThesaurus plain_thesaurus])
                (map (gemet_concept_rows plain_sample plain_thesaurus "en" false)
                   (subjects plain_sample RDF_type (TNode SKOS_Concept))))%list
  /\ submitted_by_group (refuse_label_lang "en")
       (db empty_world ++ [RThesaurus plain_thesaurus])
       (map (gemet_concept_rows plain_sample plain_thesaurus "en" false)
          (subjects plain_sample RDF_type (TNode SKOS_Concept)))
     = [RKeyword plain_keyword;
        RLabel {| ThesaurusKeywordLabel.keyword := plain_keyword;
                  ThesaurusKeywordLabel.lang := "en";
                  ThesaurusKeywordLabel.label := "Tree" |}]
  /\ snd (Agrovoc.load_thesaurus (refuse_label_lang "en") plain_sample "agrovoc.rdf"
            "agrovoc" true "AGROVOC" "" "en" false empty_world)
     = snd (Agrovoc.load_thesaurus accept_all plain_sample "agrovoc.rdf" "agrovoc"
              true "AGROVOC" "" "en" false empty_world)
  /\ saves (fst (Agrovoc.load_thesaurus (refuse_label_lang "en") plain_sample
                   "agrovoc.rdf" "agrovoc" true "AGROVOC" "" "en" false empty_world))
     = saves (fst (Agrovoc.load_thesaurus accept_all plain_sample "agrovoc.rdf"
                     "agrovoc" true "AGROVOC" "" "en" false empty_world))
  /\ balanced (fst (Agrovoc.load_thesaurus (refuse_label_lang "en") plain_sample
                      "agrovoc.rdf" "agrovoc" true "AGROVOC" "" "en" false empty_world)).
Proof.
  split; [reflexivity|]. split; [reflexivity|].
  destruct (save_failures_do_not_stop_the_run (refuse_label_lang "en") plain_sample
              empty_world "agrovoc.rdf" "agrovoc" "AGROVOC" "" "en" true false
              (fun _ _ => eq_refl)) as [(Hr & Hk & _ & Hrows) Ha].
  destruct (Ha (fun _ _ => eq_refl)) as (Hr' & Hs' & Hb').
  assert (Hth : gemet_thesaurus plain_sample "agrovoc" "en" plain_thesaurus).
  { exists AGROVOC_ConceptSchemeURI, "2022-04-04T13:50:00Z".
    split; [vm_compute; reflexivity|]. split; vm_compute; reflexivity. }
  destruct (Hrows plain_thesaurus Hth) as [Hsub _].
  split; [exact Hr|]. split; [exact Hk|]. split; [exact Hsub|].
  split; [vm_compute; reflexivity|].
  exact (conj Hr' (conj Hs' (Hb' eq_refl))).
Defined.

(** ** Case folding and the selection of labels *)













Lemma selected_pairs_app (a b : list Row) :
  selected_pairs (a ++ b) = (selected_pairs a ++ selected_pairs b)%list.
Proof.
  induction a as [|[t|tk|tkl] a IH]; simpl; auto. now rewrite IH.
Qed.




(** The pairs the two runs select on that file. *)
Example plain_sample_selection :
  selected_pairs
    (saves (fst (Agrovoc.load_thesaurus accept_all plain_sample "agrovoc.rdf" "agrovoc"
                   true "AGROVOC" "" "en" true empty_world)))
  = [("http://aims.fao.org/aos/agrovoc/c_tree", "en");
     ("http://aims.fao.org/aos/agrovoc/c_tree", "fr")]
  /\ selected_pairs
       (saves (fst (Gemet.load_thesaurus accept_all plain_sample "agrovoc.rdf" "agrovoc"
                      "en" true true empty_world)))
     = [("http://aims.fao.org/aos/agrovoc/c_tree", "en");
        ("http://aims.fao.org/aos/agrovoc/c_tree", "fr")].
Proof. split; vm_compute; reflexivity. Qed.

(** * Further properties *)

(** ** The selector: what it returns and when it fails *)

Lemma scan_sorted_lang_member (l : list Literal) (default_lang s : string) :
  scan_sorted_lang l default_lang = Some s -> exists x, In x l /\ s = lexical x.
Proof.
  intros H. apply scan_sorted_lang_some in H.
  destruct H as (pre & item & post & -> & _ & _ & ->).
  exists item. split; auto. apply in_or_app. right. now left.
Qed.

Lemma value_for_language_member (available : list Literal) (default_lang : string) :
  (available = [] /\ value_for_language available default_lang = inl IndexError)
  \/ (exists x, In x available
                /\ value_for_language available default_lang = inr (lexical x)).
Proof.
  destruct available as [|first rest]; [left; split; reflexivity|].
  right. unfold value_for_language.
  destruct (scan_sorted_lang (sorted lang_key (first :: rest)) default_lang)
    as [s|] eqn:Hscan.
  - apply scan_sorted_lang_member in Hscan. destruct Hscan as (x & Hin & ->).
    exists x. split; auto.
    eapply Permutation_in; [symmetry; apply sorted_perm | exact Hin].
  - exists first. split; auto. now left.
Qed.

(** [value_for_language] fails on the empty list only, with the
    [IndexError] of [available[0]]; on any other list it returns the text of
    one of the literals given. *)
Theorem value_for_language_returns_member
  (available : list Literal) (default_lang : string) :
  (available = [] /\ value_for_language available default_lang = inl IndexError)
  \/ (exists x, In x available
                /\ value_for_language available default_lang = inr (lexical x)).
Proof. exact (value_for_language_member available default_lang). Qed.

Lemma string_leb_empty (s : string) : String.leb s "" = true -> s = "".
Proof. destruct s; auto. discriminate. Qed.

Lemma find_filter_head {A} (p : A -> bool) (l : list A) (u : A) :
  find p l = Some u -> exists rest, filter p l = u :: rest.
Proof.
  induction l as [|x l IH]; simpl; [discriminate|].
  destruct (p x).
  - intros [= <-]. now eexists.
  - exact IH.
Qed.

(** An untagged literal wins: when the list has one, the selector returns
    the text of the first untagged literal of the list as given, whatever the
    target language and whatever literals in that language there are.  (rdflib
    has no literal with the empty string as tag.) *)
Theorem value_for_language_untagged_wins
  (available : list Literal) (default_lang : string) (u : Literal) :
  Forall (fun l => language l <> Some "") available ->
  find untagged available = Some u ->
  value_for_language available default_lang = inr (lexical u).
Proof.
  intros Htags Hfind.
  assert (Hu : language u = None).
  { apply find_some in Hfind. destruct Hfind as [_ H]. unfold untagged in H.
    now destruct (language u). }
  destruct (find_filter_head _ _ _ Hfind) as (rest & Hfilter).
  assert (Hkey : filter (fun a => String.eqb (lang_key a) "") available = u :: rest).
  { rewrite <- Hfilter. apply filter_ext_in.
    intros a Ha. rewrite Forall_forall in Htags. specialize (Htags a Ha).
    unfold lang_key, untagged. destruct (language a) as [tag|]; auto.
    apply String.eqb_neq. congruence. }
  rewrite <- (sorted_filter _ lang_key "" available) in Hkey.
  unfold value_for_language.
  destruct (sorted lang_key available) as [|h t] eqn:Hs.
  { discriminate. }
  assert (Hh : lang_key h = "").
  { assert (Hin : In u (filter (fun a => String.eqb (lang_key a) "") (h :: t)))
      by (rewrite Hkey; now left).
    apply filter_In in Hin as [Hin _].
    pose proof (sorted_sorted _ lang_key available) as Hsorted. rewrite Hs in Hsorted.
    inversion Hsorted as [|? ? _ Hall]; subst.
    apply string_leb_empty.
    destruct Hin as [->|Hin].
    - unfold lang_key. rewrite Hu. reflexivity.
    - rewrite Forall_forall in Hall. specialize (Hall u Hin).
      unfold lang_key at 2 in Hall. now rewrite Hu in Hall. }
  cbn [filter] in Hkey. rewrite Hh in Hkey. cbn in Hkey. injection Hkey as -> _.
  cbn [scan_sorted_lang]. now rewrite Hu.
Qed.

Lemma value_for_language_untagged_wins_witness :
  value_for_language
    [mkLiteral "Thesaurus" (Some "en") None; mkLiteral "Plain" None None;
     mkLiteral "Other" None None] "en"
  = inr "Plain".
Proof.
  apply (value_for_language_untagged_wins
           [mkLiteral "Thesaurus" (Some "en") None; mkLiteral "Plain" None None;
            mkLiteral "Other" None None] "en" (mkLiteral "Plain" None None)).
  - repeat constructor; discriminate.
  - reflexivity.
Defined.

(** ** The primary subtag *)

Lemma split_hyphen_0_spec (tag default_lang : string) :
  split_hyphen_0 tag = default_lang
  <-> has_hyphen default_lang = false
      /\ (tag = default_lang \/ exists region, tag = default_lang ++ String "-" region).
Proof.
  split.
  - revert default_lang. induction tag as [|c r IH]; intros default_lang; simpl.
    + intros <-. split; auto.
    + destruct (Ascii.eqb_spec c "-") as [->|Hc].
      * intros <-. split; auto. right. now exists r.
      * intros <-. destruct (IH _ eq_refl) as (Hh & Hr). split.
        -- simpl. rewrite Hh. now destruct (Ascii.eqb_spec c "-").
        -- destruct Hr as [Hr|(region & Hr)].
           ++ left. congruence.
           ++ right. exists region. simpl. congruence.
  - revert tag. induction default_lang as [|c d IH]; intros tag (Hh & Ht).
    + destruct Ht as [->|(region & ->)]; reflexivity.
    + simpl in Hh. apply orb_false_elim in Hh as [Hc Hd].
      destruct Ht as [->|(region & ->)]; simpl; rewrite Hc; f_equal; apply IH; split; auto.
      right. now exists region.
Qed.

(** Which tagged literals the selector takes: the tag is the target language
    itself or the target followed by a hyphen and anything; the comparison
    is case-sensitive, and a target that holds a hyphen (["en-GB"]) matches no
    tag at all. *)
Theorem selects_primary_subtag (default_lang tag : string) (item : Literal) :
  language item = Some tag ->
  (selects default_lang item
   <-> has_hyphen default_lang = false
       /\ (tag = default_lang
           \/ exists region, tag = default_lang ++ String "-" region)).
Proof.
  intros Htag. rewrite <- split_hyphen_0_spec. unfold selects. rewrite Htag. split.
  - intros [H|(t & [= <-] & H)]; [discriminate | exact H].
  - intros H. right. now exists tag.
Qed.

Lemma selects_primary_subtag_witness :
  (selects "en" (mkLiteral "colour" (Some "en-GB") None)
   <-> has_hyphen "en" = false
       /\ ("en-GB" = "en" \/ exists region, "en-GB" = "en" ++ String "-" region))
  /\ ~ selects "en-GB" (mkLiteral "colour" (Some "en-GB") None)
  /\ ~ selects "en" (mkLiteral "colour" (Some "EN") None).
Proof.
  split; [|split].
  - apply (selects_primary_subtag "en" "en-GB" (mkLiteral "colour" (Some "en-GB") None)).
    reflexivity.
  - intros H.
    apply (selects_primary_subtag "en-GB" "en-GB" (mkLiteral "colour" (Some "en-GB") None)
             eq_refl) in H.
    destruct H as [H _]. discriminate.
  - intros H.
    apply (selects_primary_subtag "en" "EN" (mkLiteral "colour" (Some "EN") None)
             eq_refl) in H.
    destruct H as [_ [H|(region & H)]]; discriminate.
Defined.

(** ** [preferredLabel]: what it returns and when it fails *)

Lemma py_filter_In {A} (f : A -> result bool) (l kept : list A) :
  Gemet.py_filter f l = inr kept ->
  forall x, In x kept <-> In x l /\ f x = inr true.
Proof.
  revert kept. induction l as [|y l IH]; intros kept; simpl.
  - intros [= <-] x. simpl. tauto.
  - destruct (f y) as [e|b] eqn:Hy; [discriminate|].
    destruct (Gemet.py_filter f l) as [e|kept'] eqn:Hl; [discriminate|].
    intros [= <-] x. specialize (IH kept' eq_refl x).
    destruct b; simpl; rewrite IH; split.
    + intros [<-|[H1 H2]]; auto.
    + intros [[<-|H1] H2]; auto.
    + intros [H1 H2]; auto.
    + intros [[<-|H1] H2]; [congruence | auto].
Qed.

Lemma langfilter_error (lang : option string) (t : Term) (e : Exc) :
  Gemet.langfilter lang t = inl e ->
  e = AttributeError /\ lang <> None /\ exists u, t = TNode u.
Proof.
  unfold Gemet.langfilter. destruct lang as [lang|]; [|discriminate].
  destruct t as [u|l]; simpl.
  - destruct (String.eqb lang ""); intros [= <-]; repeat split; eauto; discriminate.
  - destruct (String.eqb lang ""); discriminate.
Qed.

Lemma py_filter_error (lang : option string) (l : list Term) (e : Exc) :
  Gemet.py_filter (Gemet.langfilter lang) l = inl e ->
  e = AttributeError /\ lang <> None /\ exists u, In (TNode u) l.
Proof.
  induction l as [|y l IH]; simpl; [discriminate|].
  destruct (Gemet.langfilter lang y) as [e'|b] eqn:Hy.
  - intros [= <-]. apply langfilter_error in Hy.
    destruct Hy as (-> & Hl & u & ->). repeat split; eauto.
  - destruct (Gemet.py_filter (Gemet.langfilter lang) l) as [e'|kept]; [|discriminate].
    intros [= <-]. destruct (IH eq_refl) as (-> & Hl & u & Hu). repeat split; eauto.
Qed.

Lemma preferredLabel_loop_result (g : Graph) (subject : string) (lang : option string)
  (default res : list (string * Term)) (label_properties : list string) :
  Gemet.preferredLabel_loop g subject lang default label_properties = inr res ->
  res = default
  \/ exists labelProp,
       In labelProp label_properties
       /\ forall q t,
            In (q, t) res
            <-> q = labelProp
                /\ In t (objects g (TNode subject) (Some labelProp))
                /\ Gemet.langfilter lang t = inr true.
Proof.
  induction label_properties as [|p props IH]; cbn [Gemet.preferredLabel_loop].
  - intros [= <-]. now left.
  - destruct (Gemet.py_filter (Gemet.langfilter lang) (objects g (TNode subject) (Some p)))
      as [e|[|x kept]] eqn:Hf; [discriminate| |].
    + intros H. destruct (IH H) as [->|(q & Hq & Hres)]; [now left|].
      right. exists q. split; [now right | exact Hres].
    + intros [= <-]. right. exists p. split; [now left|].
      intros q t. rewrite <- (py_filter_In _ _ _ Hf t).
      change ((p, x) :: map (fun l_ => (p, l_)) kept)
        with (map (fun l_ => (p, l_)) (x :: kept)).
      rewrite in_map_iff. split.
      * intros (y & [= <- <-] & Hy). auto.
      * intros [-> Ht]. now exists t.
Qed.

(** The pairs [preferredLabel] returns, when it returns any, are of one
    label property, and they are all the objects of that property that pass
    the language filter, no other. *)
Theorem preferredLabel_result_of_one_property
  (g : Graph) (subject : string) (lang : option string) (res : list (string * Term)) :
  Gemet.preferredLabel g subject lang None Gemet.default_label_properties = inr res ->
  res <> [] ->
  exists labelProp,
    (labelProp = SKOS_prefLabel \/ labelProp = RDFS_label)
    /\ forall q t,
         In (q, t) res
         <-> q = labelProp
             /\ In t (objects g (TNode subject) (Some labelProp))
             /\ Gemet.langfilter lang t = inr true.
Proof.
  unfold Gemet.preferredLabel. intros H Hne.
  apply preferredLabel_loop_result in H. destruct H as [->|(p & Hp & Hres)].
  - contradiction.
  - exists p. split; auto.
    destruct Hp as [<-|[<-|[]]]; auto.
Qed.

Lemma preferredLabel_result_of_one_property_witness :
  exists labelProp,
    (labelProp = SKOS_prefLabel \/ labelProp = RDFS_label)
    /\ forall q t,
         In (q, t) [(RDFS_label, TLit (mkLiteral "House" (Some "en") None))]
         <-> q = labelProp
             /\ In t (objects haus_graph (TNode "c") (Some labelProp))
             /\ Gemet.langfilter (Some "en") t = inr true.
Proof.
  apply (preferredLabel_result_of_one_property haus_graph "c" (Some "en")
           [(RDFS_label, TLit (mkLiteral "House" (Some "en") None))]).
  - reflexivity.
  - discriminate.
Defined.

(** [preferredLabel] raises nothing but the [AttributeError] of
    [l_.language] on an object that is no literal, and never without a
    language filter. *)
Theorem preferredLabel_raises_on_node
  (g : Graph) (subject : string) (lang : option string)
  (default : option (list (string * Term))) (label_properties : list string) (e : Exc) :
  Gemet.preferredLabel g subject lang default label_properties = inl e ->
  e = AttributeError
  /\ lang <> None
  /\ exists labelProp u,
       In labelProp label_properties
       /\ In (TNode u) (objects g (TNode subject) (Some labelProp)).
Proof.
  unfold Gemet.preferredLabel.
  generalize (match default with None => [] | Some d => d end). intros d.
  induction label_properties as [|p props IH]; cbn [Gemet.preferredLabel_loop];
    [discriminate|].
  destruct (Gemet.py_filter (Gemet.langfilter lang) (objects g (TNode subject) (Some p)))
    as [e'|[|x kept]] eqn:Hf.
  - intros [= <-]. apply py_filter_error in Hf. destruct Hf as (-> & Hl & u & Hu).
    repeat split; auto. exists p, u. split; [now left | exact Hu].
  - intros H. destruct (IH H) as (-> & Hl & q & u & Hq & Hu).
    repeat split; auto. exists q, u. split; [now right | exact Hu].
  - discriminate.
Qed.

Lemma preferredLabel_raises_on_node_witness :
  Gemet.preferredLabel node_label_graph "c" (Some "en") None Gemet.default_label_properties
  = inl AttributeError
  /\ exists labelProp u,
       In labelProp Gemet.default_label_properties
       /\ In (TNode u) (objects node_label_graph (TNode "c") (Some labelProp)).
Proof.
  split; [reflexivity|].
  apply (preferredLabel_raises_on_node node_label_graph "c" (Some "en") None
           Gemet.default_label_properties AttributeError).
  reflexivity.
Defined.

(** ** The exceptions of a run *)

Section RaisesOnly.
Variable E : Exc -> Prop.

Lemma raises_only_ret {A} (a : A) : raises_only E (ret a).
Proof. intros w e H. discriminate. Qed.

Lemma raises_only_raise {A} (e : Exc) : E e -> raises_only E (raise (A := A) e).
Proof. intros He w e' [= <-]. exact He. Qed.

Lemma raises_only_lift {A} (r : result A) :
  (forall e, r = inl e -> E e) -> raises_only E (lift r).
Proof. intros H w e He. apply H. exact He. Qed.

Lemma raises_only_bind {A B} (m : M A) (k : A -> M B) :
  raises_only E m -> (forall a, raises_only E (k a)) -> raises_only E (bind m k).
Proof.
  intros Hm Hk w e. unfold bind. specialize (Hm w).
  destruct (m w) as [w' [e'|a]]; simpl in *.
  - intros [= <-]. now apply Hm.
  - apply Hk.
Qed.

Lemma raises_only_bind_lift {A B} (r : result A) (k : A -> M B) :
  (forall e, r = inl e -> E e) ->
  (forall a, r = inr a -> raises_only E (k a)) ->
  raises_only E (bind (lift r) k).
Proof.
  intros Hr Hk w e. unfold bind, lift. destruct r as [e'|a]; simpl.
  - intros [= <-]. now apply Hr.
  - now apply Hk.
Qed.

(** The bare [except] lets through what its handler raises, nothing of the
    body. *)
Lemma raises_only_try (body handler : M unit) :
  raises_only E handler -> raises_only E (try_except body handler).
Proof.
  intros Hh w e. unfold try_except.
  destruct (body w) as [w' [e'|a]]; simpl; [apply Hh | discriminate].
Qed.

Lemma raises_only_stderr_write (style : Style) (msg : string) :
  raises_only E (stderr_write style msg).
Proof. intros w e H. discriminate. Qed.

Lemma raises_only_print (msg : string) : raises_only E (print msg).
Proof. intros w e H. discriminate. Qed.

Lemma raises_only_save_if (store : bool) (accepts : Sink) (row : Row) :
  (store = true -> forall rows, accepts rows row = false -> E IntegrityError) ->
  raises_only E (save_if store accepts row).
Proof.
  intros H w e. unfold save_if, save. destruct store; [|discriminate].
  destruct (accepts (db w) row) eqn:Ha; simpl; [discriminate|].
  intros [= <-]. now apply (H eq_refl (db w)).
Qed.

Lemma raises_only_for_each {A} (l : list A) (body : A -> M unit) :
  (forall x, In x l -> raises_only E (body x)) -> raises_only E (for_each l body).
Proof.
  induction l as [|x l IH]; intros H; simpl.
  - apply raises_only_ret.
  - apply raises_only_bind; [apply H; now left|].
    intros _. apply IH. intros y Hy. apply H. now right.
Qed.
End RaisesOnly.

Lemma replace_tzinfo_isoformat_error (v : option PyValue) (e : Exc) :
  replace_tzinfo_isoformat v = inl e ->
  (e = AttributeError /\ v = Some PyNoReplace)
  \/ (e = TypeError /\ v <> Some PyNoReplace).
Proof.
  destruct v as [[d|t| | |]|]; simpl; try discriminate; intros [= <-];
    first [left; split; reflexivity | right; split; [reflexivity | discriminate]].
Qed.

Lemma thesaurus_date_error (g : Graph) (e : Exc) :
  Agrovoc.thesaurus_date g = inl e -> e = TypeError \/ e = AttributeError.
Proof.
  unfold Agrovoc.thesaurus_date. intros H.
  apply replace_tzinfo_isoformat_error in H. tauto.
Qed.

Lemma value_subject_unique_error (g : Graph) (p : string) (o : Term) (e : Exc) :
  value_subject_unique g p o = inl e -> e = UniquenessError.
Proof.
  unfold value_subject_unique.
  destruct (subjects g p o) as [|s [|s' rest]]; try discriminate. now intros [= <-].
Qed.

Lemma value_for_language_error (available : list Literal) (default_lang : string)
  (e : Exc) :
  value_for_language available default_lang = inl e -> e = IndexError /\ available = [].
Proof.
  destruct (value_for_language_member available default_lang)
    as [[-> H]|(x & _ & H)]; rewrite H; [|discriminate].
  intros [= <-]. auto.
Qed.

Lemma apply_lower_case_opt_error (tag : option string) (lower_case : bool) (e : Exc) :
  __apply_lower_case__opt tag lower_case = inl e ->
  e = AttributeError /\ lower_case = true /\ tag = None.
Proof.
  unfold __apply_lower_case__opt. destruct lower_case; [|discriminate].
  destruct tag; [discriminate|]. now intros [= <-].
Qed.

Lemma agrovoc_label_loop_raises (accepts : Sink) (g : Graph) (store lower_case : bool)
  (tk : ThesaurusKeyword.t) (elements : list Term) (i : nat) :
  raises_only (fun e => e = AttributeError /\ lower_case = true)
    (Agrovoc.label_loop accepts g store lower_case tk elements i).
Proof.
  revert i. induction elements as [|x rest IH]; intros i; simpl.
  - apply raises_only_ret.
  - apply raises_only_bind; [|intros; apply IH].
    unfold Agrovoc.label_step. apply raises_only_bind_lift.
    + intros e He. apply apply_lower_case_opt_error in He. tauto.
    + intros [lang|] _; [|apply raises_only_ret].
      destruct (negb (supported lang)); [apply raises_only_ret|].
      apply raises_only_bind; [|intros; apply raises_only_ret].
      destruct store; [|apply raises_only_ret].
      apply raises_only_try. apply raises_only_stderr_write.
Qed.

(** After the thesaurus row the AGROVOC loop raises for a refused keyword
    and for an untagged label under folding, nothing else. *)
Lemma agrovoc_concept_step_raises (accepts : Sink) (g : Graph) (thesaurus : Thesaurus.t)
  (store : bool) (defaultlang : string) (lower_case : bool) (concept : string) :
  raises_only
    (fun e => (e = IntegrityError /\ store = true
               /\ exists rows tk, accepts rows (RKeyword tk) = false)
              \/ (e = AttributeError /\ lower_case = true))
    (Agrovoc.concept_step accepts g thesaurus store defaultlang lower_case concept).
Proof.
  unfold Agrovoc.concept_step.
  destruct (Agrovoc.get_default_language_preflabel g concept defaultlang) as [alt|];
    [|apply raises_only_ret].
  apply raises_only_bind.
  - apply raises_only_save_if. intros Hs rows Hr. left. eauto.
  - intros _. apply raises_only_bind; [|intros; apply raises_only_stderr_write].
    intros w e He. right.
    exact (agrovoc_label_loop_raises _ _ _ _ _ _ _ w e He).
Qed.

Lemma agrovoc_load_thesaurus_raises (accepts : Sink) (g : Graph)
  (input_file name title description defaultlang : string) (store lower_case : bool) :
  raises_only (agrovoc_failure accepts g store lower_case)
    (Agrovoc.load_thesaurus accepts g input_file name store title description
       defaultlang lower_case).
Proof.
  unfold Agrovoc.load_thesaurus, agrovoc_failure.
  apply raises_only_bind; [apply raises_only_stderr_write|]. intros _.
  apply raises_only_bind; [apply raises_only_stderr_write|]. intros _.
  apply raises_only_bind_lift.
  { intros e He. destruct (thesaurus_date_error g e He) as [->| ->]; [left|do 5 right];
      auto. }
  intros date _. apply raises_only_bind_lift.
  { intros e He. apply value_subject_unique_error in He. auto. }
  intros [scheme|] _; [|apply raises_only_raise; auto].
  apply raises_only_bind_lift.
  { intros e He. apply value_for_language_error in He. tauto. }
  intros thesaurus_title _.
  apply raises_only_bind.
  { apply raises_only_save_if. intros Hs rows Hr.
    do 4 right. left. split; [reflexivity|]. split; [exact Hs|].
    exists rows. eexists. split; [|exact Hr]. reflexivity. }
  intros _. apply raises_only_bind; [apply raises_only_stderr_write|]. intros _.
  apply raises_only_for_each. intros concept _ w e He.
  apply agrovoc_concept_step_raises in He.
  destruct He as [(-> & Hs & rows & tk & Hr)|(-> & Hl)].
  - do 4 right. left. split; [reflexivity|]. split; [exact Hs|].
    exists rows, (RKeyword tk). auto.
  - do 5 right. auto.
Qed.

Lemma agrovoc_load_thesaurus_failures_aux
  (accepts : Sink) (g : Graph) (w : World)
  (input_file name title description defaultlang : string) (store lower_case : bool)
  (e : Exc) :
  snd (Agrovoc.load_thesaurus accepts g input_file name store title description
         defaultlang lower_case w) = inl e ->
  agrovoc_failure accepts g store lower_case e.
Proof. apply agrovoc_load_thesaurus_raises. Qed.

(** The exceptions of the AGROVOC command: the [TypeError] and the
    [AttributeError] of a modification date that is no [datetime] and no
    [time] (the second for a value without [replace], a number say), the
    scheme that is missing or not alone, the scheme without a literal, a
    refused thesaurus or keyword row, the [AttributeError] of an untagged
    label under folding.  A refused label never leaves it. *)
Theorem agrovoc_load_thesaurus_failures
  (accepts : Sink) (g : Graph) (w : World)
  (input_file name title description defaultlang : string) (store lower_case : bool)
  (e : Exc) :
  snd (Agrovoc.load_thesaurus accepts g input_file name store title description
         defaultlang lower_case w) = inl e ->
  agrovoc_failure accepts g store lower_case e.
Proof. apply agrovoc_load_thesaurus_raises. Qed.

Lemma agrovoc_load_thesaurus_failures_witness :
  snd (agrovoc_run (refuse_keyword_about "http://aims.fao.org/aos/agrovoc/c_Soil") false)
  = inl IntegrityError
  /\ agrovoc_failure (refuse_keyword_about "http://aims.fao.org/aos/agrovoc/c_Soil")
       agrovoc_sample true false IntegrityError.
Proof.
  split; [vm_compute; reflexivity|].
  apply (agrovoc_load_thesaurus_failures
           (refuse_keyword_about "http://aims.fao.org/aos/agrovoc/c_Soil")
           agrovoc_sample empty_world "agrovoc.rdf" "agrovoc" "AGROVOC" "my description"
           "en" true false IntegrityError).
  vm_compute. reflexivity.
Defined.

Lemma gemet_concept_step_raises (accepts : Sink) (g : Graph) (thesaurus : Thesaurus.t)
  (store : bool) (defaultlang : string) (lower_case : bool) (concept : string) :
  raises_only (fun _ => False)
    (Gemet.concept_step accepts g thesaurus store defaultlang lower_case concept).
Proof.
  unfold Gemet.concept_step.
  destruct (Gemet.pref_of g concept defaultlang lower_case); [apply raises_only_ret|].
  apply raises_only_bind; [apply raises_only_stderr_write|]. intros _.
  apply raises_only_try. apply raises_only_print.
Qed.

Lemma gemet_load_thesaurus_raises (accepts : Sink) (g : Graph)
  (input_file name defaultlang : string) (store lower_case : bool) :
  raises_only (gemet_failure accepts store)
    (Gemet.load_thesaurus accepts g input_file name defaultlang store lower_case).
Proof.
  unfold Gemet.load_thesaurus, gemet_failure.
  apply raises_only_bind; [apply raises_only_stderr_write|]. intros _.
  apply raises_only_bind_lift.
  { intros e He. apply value_subject_unique_error in He. auto. }
  intros [scheme|] _; [|apply raises_only_raise; auto].
  apply raises_only_bind_lift.
  { intros e He. apply value_for_language_error in He. tauto. }
  intros thesaurus_title _.
  apply raises_only_bind; [apply raises_only_stderr_write|]. intros _.
  apply raises_only_bind.
  { apply raises_only_save_if. intros Hs rows Hr. do 3 right.
    split; [reflexivity|]. split; [exact Hs|]. eauto. }
  intros _. apply raises_only_for_each. intros concept _ w e He.
  destruct (gemet_concept_step_raises _ _ _ _ _ _ _ w e He).
Qed.

(** How the GEMET command ends: it fails for an ambiguous or missing scheme,
    for a scheme without a literal and for a refused thesaurus row, and for
    nothing that happens to a concept or a label. *)
Theorem gemet_load_thesaurus_outcome
  (accepts : Sink) (g : Graph) (w : World)
  (input_file name defaultlang : string) (store lower_case : bool) :
  snd (Gemet.load_thesaurus accepts g input_file name defaultlang store lower_case w)
  = match value_subject_unique g RDF_type (TNode SKOS_ConceptScheme) with
    | inl e => inl e
    | inr None => inl (CommandError "ConceptScheme not found in file")
    | inr (Some scheme) =>
        match value_for_language (literals_only (objects g (TNode scheme) None))
                defaultlang with
        | inl e => inl e
        | inr title =>
            if store
               && negb (accepts (db w)
                          (RThesaurus (gemet_thesaurus_row g name scheme title)))
            then inl IntegrityError
            else inr tt
        end
    end.
Proof.
  unfold Gemet.load_thesaurus, bind, lift, stderr_write, raise, gemet_thesaurus_row.
  cbv beta iota.
  destruct (value_subject_unique g RDF_type (TNode SKOS_ConceptScheme)) as [e|[scheme|]];
    cbv beta iota; try reflexivity.
  destruct (value_for_language (literals_only (objects g (TNode scheme) None)) defaultlang)
    as [e|title]; cbv beta iota; try reflexivity.
  unfold save_if, save, ret.
  destruct store; cbn [andb negb]; cbv beta iota; cbn [db saves out].
  - destruct (accepts (db w) _); cbn [negb]; cbv beta iota; [|reflexivity].
    match goal with
    | |- context [for_each ?cs (Gemet.concept_step ?acc ?gg ?th ?st ?dl ?lc) ?w0] =>
        destruct (gemet_concept_loop_isolated acc gg st lc th dl cs w0) as (Hr & _);
        revert Hr;
        generalize (for_each cs (Gemet.concept_step acc gg th st dl lc) w0)
    end.
    intros [w1 r] Hr. exact Hr.
  - match goal with
    | |- context [for_each ?cs (Gemet.concept_step ?acc ?gg ?th ?st ?dl ?lc) ?w0] =>
        destruct (gemet_concept_loop_isolated acc gg st lc th dl cs w0) as (Hr & _);
        revert Hr;
        generalize (for_each cs (Gemet.concept_step acc gg th st dl lc) w0)
    end.
    intros [w1 r] Hr. exact Hr.
Qed.

(** ** Missing arguments *)

(** [handle] raises its two [CommandError]s for a missing [--file] and a
    missing [--name], the file first, before anything is written or saved, and
    no run raises them for another reason. *)
Theorem handle_missing_arguments
  (accepts : Sink) (g : Graph) (w : World) (a : Agrovoc.Options) (o : Gemet.Options) :
  let no_file f := f = None \/ f = Some "" in
  let no_name n := n = None \/ n = Some "" in
  let error_file := CommandError "Missing thesaurus rdf file path (--file)" in
  let error_name := CommandError "Missing identifier name for the thesaurus (--name)" in
  ((snd (Agrovoc.handle accepts g a w) = inl error_file <-> no_file (Agrovoc.file a))
   /\ (snd (Agrovoc.handle accepts g a w) = inl error_name
       <-> ~ no_file (Agrovoc.file a) /\ no_name (Agrovoc.name a))
   /\ (no_file (Agrovoc.file a) \/ no_name (Agrovoc.name a) ->
       fst (Agrovoc.handle accepts g a w) = w))
  /\ ((snd (Gemet.handle accepts g o w) = inl error_file <-> no_file (Gemet.file o))
      /\ (snd (Gemet.handle accepts g o w) = inl error_name
          <-> ~ no_file (Gemet.file o) /\ no_name (Gemet.name o))
      /\ (no_file (Gemet.file o) \/ no_name (Gemet.name o) ->
          fst (Gemet.handle accepts g o w) = w)).
Proof.
  intros no_file no_name error_file error_name.
  assert (Ha : forall f n s t d dl lc e,
             snd (Agrovoc.load_thesaurus accepts g f n s t d dl lc w) = inl e ->
             e <> error_file /\ e <> error_name).
  { intros f n s t d dl lc e He. apply agrovoc_load_thesaurus_failures_aux in He.
    destruct He as [(-> & _)|[->|[->|[->|[(-> & _)|(-> & _)]]]]]; split; discriminate. }
  assert (Hg : forall f n dl s lc e,
             snd (Gemet.load_thesaurus accepts g f n dl s lc w) = inl e ->
             e <> error_file /\ e <> error_name).
  { intros f n dl s lc e He. apply gemet_load_thesaurus_raises in He.
    destruct He as [->|[->|[->|(-> & _)]]]; split; discriminate. }
  unfold no_file, no_name. split.
  - unfold Agrovoc.handle.
    destruct (Agrovoc.file a) as [[|c f]|]; cbn [raise fst snd].
    1,3: split; [split; [auto | intros _; auto]|]; split; [|reflexivity].
    1,2: split; [discriminate | intros [H _]; exfalso; apply H; auto].
    destruct (Agrovoc.name a) as [[|d n]|]; cbn [raise fst snd].
    1,3: split; [split; [discriminate | intros [H|H]; discriminate]|];
         split; [|reflexivity];
         split; [intros _; split; [intros [H|H]; discriminate | auto] | reflexivity].
    split; [|split].
    + split; [|intros [H|H]; discriminate].
      intros H. apply Ha in H. destruct H as [H _]. now elim H.
    + split; [|intros [_ [H|H]]; discriminate].
      intros H. apply Ha in H. destruct H as [_ H]. now elim H.
    + intros [[H|H]|[H|H]]; discriminate.
  - unfold Gemet.handle.
    destruct (Gemet.file o) as [[|c f]|]; cbn [raise fst snd].
    1,3: split; [split; [auto | intros _; auto]|]; split; [|reflexivity].
    1,2: split; [discriminate | intros [H _]; exfalso; apply H; auto].
    destruct (Gemet.name o) as [[|d n]|]; cbn [raise fst snd].
    1,3: split; [split; [discriminate | intros [H|H]; discriminate]|];
         split; [|reflexivity];
         split; [intros _; split; [intros [H|H]; discriminate | auto] | reflexivity].
    split; [|split].
    + split; [|intros [H|H]; discriminate].
      intros H. apply Hg in H. destruct H as [H _]. now elim H.
    + split; [|intros [_ [H|H]]; discriminate].
      intros H. apply Hg in H. destruct H as [_ H]. now elim H.
    + intros [[H|H]|[H|H]]; discriminate.
Qed.

(** ** Fatal inputs *)

Lemma thesaurus_date_datetime (g : Graph) (d : string) :
  Agrovoc.thesaurus_date g = inr d
  <-> exists l, value g (TNode AGROVOC_ConceptSchemeURI) DCTERMS_modified = Some (TLit l)
                /\ (toPython l = Some (PyDatetime d) \/ toPython l = Some (PyTime d)).
Proof.
  unfold Agrovoc.thesaurus_date.
  destruct (value g (TNode AGROVOC_ConceptSchemeURI) DCTERMS_modified) as [[u|l]|];
    simpl.
  - split; [discriminate | intros (l & [=] & _)].
  - split.
    + destruct (toPython l) as [[d'|t| | |]|] eqn:Hd; simpl; try discriminate;
        intros [= <-]; exists l; auto.
    + intros (l' & [= <-] & [-> | ->]); reflexivity.
  - split; [discriminate | intros (l & [=] & _)].
Qed.

Lemma thesaurus_date_no_replace (g : Graph) :
  Agrovoc.thesaurus_date g = inl AttributeError
  <-> exists l, value g (TNode AGROVOC_ConceptSchemeURI) DCTERMS_modified = Some (TLit l)
                /\ toPython l = Some PyNoReplace.
Proof.
  unfold Agrovoc.thesaurus_date.
  destruct (value g (TNode AGROVOC_ConceptSchemeURI) DCTERMS_modified) as [[u|l]|];
    simpl.
  - split; [discriminate | intros (l & [=] & _)].
  - split.
    + destruct (toPython l) as [[d'|t| | |]|] eqn:Hd; simpl; try discriminate.
      intros _. now exists l.
    + intros (l' & [= <-] & ->). reflexivity.
  - split; [discriminate | intros (l & [=] & _)].
Qed.

(** The AGROVOC command reads the date off the fixed AGROVOC URI, whatever
    scheme the file has: unless the first [dcterms:modified] object of that
    URI is a literal whose Python value is a [datetime] or a [time], the run
    ends before the scheme is looked for, with the two parse lines written
    and nothing saved.  It ends in an [AttributeError] when the value has no
    [replace] (a number, say), else in a [TypeError]. *)
Theorem agrovoc_date_is_required
  (accepts : Sink) (g : Graph) (w : World)
  (input_file name title description defaultlang : string) (store lower_case : bool) :
  (forall l iso,
      value g (TNode AGROVOC_ConceptSchemeURI) DCTERMS_modified = Some (TLit l) ->
      toPython l <> Some (PyDatetime iso) /\ toPython l <> Some (PyTime iso)) ->
  exists e,
    (e = TypeError \/ e = AttributeError)
    /\ (e = AttributeError
        <-> exists l,
              value g (TNode AGROVOC_ConceptSchemeURI) DCTERMS_modified = Some (TLit l)
              /\ toPython l = Some PyNoReplace)
    /\ Agrovoc.load_thesaurus accepts g input_file name store title description
         defaultlang lower_case w
       = (mkWorld (db w) (saves w)
            ((out w
              ++ [Stderr SUCCESS ("Starting to parsed file: " ++ input_file ++ " ...")])
             ++ [Stderr SUCCESS ("Successful parsed file: " ++ input_file ++ " ...")]),
          inl e).
Proof.
  intros H. unfold Agrovoc.load_thesaurus, bind, lift, stderr_write. cbv beta iota.
  destruct (Agrovoc.thesaurus_date g) as [e|d] eqn:Hd.
  - exists e. split; [now apply (thesaurus_date_error g)|]. split; [|reflexivity].
    rewrite <- thesaurus_date_no_replace. rewrite Hd.
    split; [now intros -> | now intros [= ->]].
  - apply thesaurus_date_datetime in Hd. destruct Hd as (l & Hl & Hd).
    destruct (H l d Hl) as [H1 H2]. tauto.
Qed.

Lemma agrovoc_date_is_required_witness :
  exists e,
    (e = TypeError \/ e = AttributeError)
    /\ (e = AttributeError
        <-> exists l,
              value numbered_sample (TNode AGROVOC_ConceptSchemeURI) DCTERMS_modified
              = Some (TLit l)
              /\ toPython l = Some PyNoReplace)
    /\ Agrovoc.load_thesaurus accept_all numbered_sample "agrovoc.rdf" "agrovoc" true
         "AGROVOC" "" "en" false empty_world
       = (mkWorld (db empty_world) (saves empty_world)
            ((out empty_world
              ++ [Stderr SUCCESS ("Starting to parsed file: " ++ "agrovoc.rdf" ++ " ...")])
             ++ [Stderr SUCCESS ("Successful parsed file: " ++ "agrovoc.rdf" ++ " ...")]),
          inl e).
Proof.
  apply (agrovoc_date_is_required accept_all numbered_sample empty_world "agrovoc.rdf"
           "agrovoc" "AGROVOC" "" "en" true false).
  intros l iso H. vm_compute in H. injection H as <-. split; discriminate.
Defined.

(** A file with no concept scheme, or with several, is refused by both
    commands and leaves the sink untouched: [CommandError] for none,
    rdflib's [UniquenessError] for several (the AGROVOC command may have
    stopped at the date before). *)
Theorem scheme_must_be_unique
  (accepts : Sink) (g : Graph) (w : World)
  (input_file name title description defaultlang : string) (store lower_case : bool) :
  length (subjects g RDF_type (TNode SKOS_ConceptScheme)) <> 1 ->
  let gemet :=
    Gemet.load_thesaurus accepts g input_file name defaultlang store lower_case w in
  let agrovoc :=
    Agrovoc.load_thesaurus accepts g input_file name store title description
      defaultlang lower_case w in
  (snd gemet
   = inl (match subjects g RDF_type (TNode SKOS_ConceptScheme) with
          | [] => CommandError "ConceptScheme not found in file"
          | _ => UniquenessError
          end)
   /\ db (fst gemet) = db w /\ saves (fst gemet) = saves w)
  /\ (snd agrovoc
      = inl (match Agrovoc.thesaurus_date g,
                   subjects g RDF_type (TNode SKOS_ConceptScheme) with
             | inl e, _ => e
             | inr _, [] => CommandError "ConceptScheme not found in file"
             | inr _, _ => UniquenessError
             end)
      /\ db (fst agrovoc) = db w /\ saves (fst agrovoc) = saves w).
Proof.
  intros Hlen gemet agrovoc. subst gemet agrovoc.
  unfold Gemet.load_thesaurus, Agrovoc.load_thesaurus, bind, lift, stderr_write, raise,
    value_subject_unique.
  cbv beta iota.
  destruct (subjects g RDF_type (TNode SKOS_ConceptScheme)) as [|s [|s' rest]];
    [| now elim Hlen |]; cbv beta iota.
  - split; [repeat split|].
    destruct (Agrovoc.thesaurus_date g); repeat split.
  - split; [repeat split|].
    destruct (Agrovoc.thesaurus_date g); repeat split.
Qed.

Lemma scheme_must_be_unique_witness :
  snd (Gemet.load_thesaurus accept_all haus_graph "haus.rdf" "haus" "en" true false
         empty_world)
  = inl (CommandError "ConceptScheme not found in file")
  /\ db (fst (Gemet.load_thesaurus accept_all haus_graph "haus.rdf" "haus" "en" true false
                empty_world)) = [].
Proof.
  destruct (scheme_must_be_unique accept_all haus_graph empty_world "haus.rdf" "haus"
              "AGROVOC" "" "en" true false) as [(Hr & Hdb & _) _].
  - vm_compute. discriminate.
  - split; [exact Hr | exact Hdb].
Defined.

(** ** Folding and untagged labels *)

Lemma for_each_raises_at {A} (e0 : Exc) (l : list A) (body : A -> M unit) (c : A) :
  (forall x, In x l -> raises_only (fun e => e = e0) (body x)) ->
  In c l ->
  (forall w, snd (body c w) = inl e0) ->
  forall w, snd (for_each l body w) = inl e0.
Proof.
  induction l as [|x l IH]; intros Hall Hin Hc w; [destruct Hin|].
  simpl. unfold bind.
  destruct (body x w) as [w1 [e|[]]] eqn:Hx.
  - simpl. f_equal. apply (Hall x (or_introl eq_refl) w e). now rewrite Hx.
  - destruct Hin as [->|Hin].
    + specialize (Hc w). rewrite Hx in Hc. discriminate.
    + apply IH; auto. intros y Hy. apply Hall. now right.
Qed.

Lemma never_raises_returns (m : M unit) (w : World) :
  raises_only (fun _ => False) m -> snd (m w) = inr tt.
Proof.
  intros H. specialize (H w). destruct (snd (m w)) as [e|[]]; auto.
  destruct (H e eq_refl).
Qed.

Lemma agrovoc_label_loop_untagged (accepts : Sink) (g : Graph) (tk : ThesaurusKeyword.t)
  (elements : list Term) (target : Term) (i : nat) (w : World) :
  In target elements ->
  language (literal_form g target) = None ->
  snd (Agrovoc.label_loop accepts g false true tk elements i w) = inl AttributeError.
Proof.
  intros Hin Hnone. revert i w.
  induction elements as [|x rest IH]; intros i w; [destruct Hin|].
  simpl. unfold bind at 1.
  unfold Agrovoc.label_step. fold (literal_form g x).
  unfold bind, lift, __apply_lower_case__opt, ret.
  destruct (language (literal_form g x)) as [tag|] eqn:Hx; [|reflexivity].
  assert (Hrest : In target rest).
  { destruct Hin as [->|H]; [congruence | exact H]. }
  destruct (negb (supported (lower tag))); cbv beta iota; now apply IH.
Qed.

(** With [--force-lower-case] the AGROVOC command cannot get past a label
    without a language tag (also a [skos-xl:prefLabel] target that has no
    literal form): [None.lower()] raises, outside every [try], and even a dry
    run ends in [AttributeError]; the same dry run without folding ends
    well. *)
Theorem agrovoc_folding_fails_on_untagged_label
  (accepts : Sink) (g : Graph) (w : World)
  (input_file name title description defaultlang : string)
  (date scheme thesaurus_title concept alt_label : string) (target : Term) :
  Agrovoc.thesaurus_date g = inr date ->
  value_subject_unique g RDF_type (TNode SKOS_ConceptScheme) = inr (Some scheme) ->
  value_for_language (literals_only (objects g (TNode scheme) None)) defaultlang
  = inr thesaurus_title ->
  In concept (subjects g SKOS_inScheme (TNode AGROVOC_ConceptSchemeURI)) ->
  Agrovoc.get_default_language_preflabel g concept defaultlang = Some alt_label ->
  In target (objects g (TNode concept) (Some SKOS_XL.prefLabel)) ->
  language (literal_form g target) = None ->
  snd (Agrovoc.load_thesaurus accepts g input_file name false title description
         defaultlang true w) = inl AttributeError
  /\ snd (Agrovoc.load_thesaurus accepts g input_file name false title description
            defaultlang false w) = inr tt.
Proof.
  intros Hdate Hscheme Htitle Hconcept Halt Htarget Hnone.
  unfold Agrovoc.load_thesaurus, bind, lift, stderr_write. cbv beta iota.
  rewrite Hdate, Hscheme, Htitle. cbv beta iota.
  unfold save_if, ret. cbv beta iota. split.
  - match goal with
    | |- snd (for_each ?cs ?f ?w0) = _ =>
        apply (for_each_raises_at AttributeError cs f concept)
    end; auto.
    + intros c _ w0 e He. apply agrovoc_concept_step_raises in He.
      destruct He as [(_ & Hs & _)|(He & _)]; [discriminate | exact He].
    + intros w0. unfold Agrovoc.concept_step. rewrite Halt.
      unfold bind at 1. unfold save_if, ret. cbv beta iota. unfold bind.
      match goal with
      | |- context [Agrovoc.label_loop ?a ?gg false true ?tk ?els ?i ?w1] =>
          generalize (agrovoc_label_loop_untagged a gg tk els target i w1 Htarget Hnone);
          destruct (Agrovoc.label_loop a gg false true tk els i w1) as [w2 [e|n]]
      end; cbn [fst snd]; intros Hl; [congruence | discriminate].
  - apply never_raises_returns.
    apply raises_only_for_each. intros c _ w0 e He.
    apply agrovoc_concept_step_raises in He.
    destruct He as [(_ & Hs & _)|(_ & Hl)]; discriminate.
Qed.

Lemma agrovoc_folding_fails_on_untagged_label_witness :
  snd (Agrovoc.load_thesaurus accept_all orphan_sample "agrovoc.rdf" "agrovoc" false
         "AGROVOC" "" "en" true empty_world) = inl AttributeError
  /\ snd (Agrovoc.load_thesaurus accept_all orphan_sample "agrovoc.rdf" "agrovoc" false
            "AGROVOC" "" "en" false empty_world) = inr tt.
Proof.
  apply (agrovoc_folding_fails_on_untagged_label accept_all orphan_sample empty_world
           "agrovoc.rdf" "agrovoc" "AGROVOC" "" "en"
           "2022-04-04T13:50:00" "http://aims.fao.org/aos/agrovoc" "2022-04-04T13:50:00Z"
           "http://aims.fao.org/aos/agrovoc/c_Tree" "Tree" (TNode "xl_orphan")).
  - vm_compute. reflexivity.
  - vm_compute. reflexivity.
  - vm_compute. reflexivity.
  - vm_compute. left. reflexivity.
  - vm_compute. reflexivity.
  - vm_compute. right. left. reflexivity.
  - vm_compute. reflexivity.
Defined.

(** ** Rows and the rows they belong to *)

Section Hoare.
Variable A : Type.

Lemma hoare_ret (Pre : World -> Prop) (a : A) (Post : A -> World -> Prop)
  (Exn : World -> Prop) :
  (forall w, Pre w -> Post a w) -> hoare Pre (ret a) Post Exn.
Proof. intros H w Hw. now apply H. Qed.

Lemma hoare_lift (Pre : World -> Prop) (r : result A) (Post : A -> World -> Prop)
  (Exn : World -> Prop) :
  (forall a, r = inr a -> forall w, Pre w -> Post a w) ->
  (forall e, r = inl e -> forall w, Pre w -> Exn w) ->
  hoare Pre (lift r) Post Exn.
Proof.
  intros Hr He w Hw. unfold lift. destruct r as [e|a]; [now apply (He e) | now apply Hr].
Qed.

Lemma hoare_conseq (Pre Pre' : World -> Prop) (m : M A) (Post Post' : A -> World -> Prop)
  (Exn Exn' : World -> Prop) :
  hoare Pre' m Post' Exn' ->
  (forall w, Pre w -> Pre' w) ->
  (forall a w, Post' a w -> Post a w) ->
  (forall w, Exn' w -> Exn w) ->
  hoare Pre m Post Exn.
Proof.
  intros H HP HQ HE w Hw. specialize (H w (HP w Hw)).
  destruct (m w) as [w' [e|a]]; auto.
Qed.
End Hoare.

Lemma hoare_bind {A B} (Pre : World -> Prop) (m : M A) (k : A -> M B)
  (Mid : A -> World -> Prop) (Post : B -> World -> Prop) (Exn : World -> Prop) :
  hoare Pre m Mid Exn -> (forall a, hoare (Mid a) (k a) Post Exn) ->
  hoare Pre (bind m k) Post Exn.
Proof.
  intros Hm Hk w Hw. unfold bind. specialize (Hm w Hw).
  destruct (m w) as [w' [e|a]]; auto. now apply Hk.
Qed.

Lemma hoare_try (Pre : World -> Prop) (body handler : M unit)
  (Caught : World -> Prop) (Post : unit -> World -> Prop) (Exn : World -> Prop) :
  hoare Pre body Post Caught -> hoare Caught handler Post Exn ->
  hoare Pre (try_except body handler) Post Exn.
Proof.
  intros Hb Hh w Hw. unfold try_except. specialize (Hb w Hw).
  destruct (body w) as [w' [e|a]]; auto. now apply Hh.
Qed.

Lemma hoare_for_each {A} (Inv Exn : World -> Prop) (l : list A) (body : A -> M unit) :
  (forall x, In x l -> hoare Inv (body x) (fun _ => Inv) Exn) ->
  hoare Inv (for_each l body) (fun _ => Inv) Exn.
Proof.
  induction l as [|x l IH]; intros H; simpl.
  - now apply hoare_ret.
  - eapply hoare_bind; [apply H; now left|].
    intros u. apply IH. intros y Hy. apply H. now right.
Qed.

(** A predicate on the rows persisted and the rows submitted is untouched by
    a write. *)
Lemma hoare_stderr_write (I : list Row -> list Row -> Prop) (style : Style) (msg : string)
  (Exn : World -> Prop) :
  hoare (fun w => I (db w) (saves w)) (stderr_write style msg)
    (fun _ w => I (db w) (saves w)) Exn.
Proof. intros w Hw. exact Hw. Qed.

Lemma hoare_print (I : list Row -> list Row -> Prop) (msg : string) (Exn : World -> Prop) :
  hoare (fun w => I (db w) (saves w)) (print msg) (fun _ w => I (db w) (saves w)) Exn.
Proof. intros w Hw. exact Hw. Qed.

(** [if store: row.save()]: taken, the row is at the end of both lists;
    refused, at the end of the rows submitted. *)
Lemma hoare_save_if (I J E : list Row -> list Row -> Prop) (store : bool) (accepts : Sink)
  (row : Row) :
  (store = false -> forall d s, I d s -> J d s) ->
  (store = true -> forall d s, I d s -> J (d ++ [row])%list (s ++ [row])%list) ->
  (store = true -> forall d s, I d s -> E d (s ++ [row])%list) ->
  hoare (fun w => I (db w) (saves w)) (save_if store accepts row)
    (fun _ w => J (db w) (saves w)) (fun w => E (db w) (saves w)).
Proof.
  intros Hdry Hok Hno w Hw. unfold save_if, save.
  destruct store; [|now apply Hdry].
  destruct (accepts (db w) row); simpl; auto.
Qed.

Lemma thesaurus_rows_app (a b : list Row) :
  thesaurus_rows (a ++ b) = (thesaurus_rows a ++ thesaurus_rows b)%list.
Proof. apply filter_app. Qed.

Lemma closed_parent_before (rows pre post : list Row) (r : Row) :
  closed rows -> rows = (pre ++ r :: post)%list -> parent_in r pre.
Proof.
  intros H. revert pre post. induction H as [|rows x Hc IH Hp]; intros pre post Heq.
  - destruct pre; discriminate.
  - destruct (List.rev post) as [|y post'] eqn:Hrev.
    + apply (f_equal (@List.rev Row)) in Hrev. rewrite rev_involutive in Hrev. simpl in Hrev.
      subst post. apply app_inj_tail in Heq. destruct Heq as [-> ->]. exact Hp.
    + apply (f_equal (@List.rev Row)) in Hrev. rewrite rev_involutive in Hrev. simpl in Hrev.
      subst post. rewrite app_comm_cons, app_assoc in Heq.
      apply app_inj_tail in Heq. destruct Heq as [Heq _].
      now apply (IH pre (List.rev post')).
Qed.

Lemma kept_weaken (store : bool) (rows rows' : list Row) (w : World) :
  incl rows' rows -> kept store rows w -> kept store rows' w.
Proof.
  intros Hi [Hc Hk]. split; [exact Hc|].
  intros Hs x Hx. apply (Hk Hs). now apply Hi.
Qed.

(** A row whose parent is among [rows] is saved behind it; refused, the
    rows persisted are as before. *)
Lemma hoare_save_kept (accepts : Sink) (row : Row) (rows : list Row) :
  (forall d, incl rows d -> parent_in row d) ->
  hoare (kept true rows) (save accepts row) (fun _ => kept true (row :: rows))
    (kept true rows).
Proof.
  intros Hp w [Hc Hk]. unfold save.
  destruct (accepts (db w) row); unfold kept; cbn [db].
  - split.
    + apply closed_snoc; [exact Hc|]. apply Hp. now apply Hk.
    + intros _ x [<-|Hx].
      * apply in_or_app. right. now left.
      * apply in_or_app. left. now apply (Hk eq_refl).
  - split; assumption.
Qed.

Lemma hoare_save_if_kept (store : bool) (accepts : Sink) (row : Row) (rows : list Row) :
  (forall d, incl rows d -> parent_in row d) ->
  hoare (kept store rows) (save_if store accepts row) (fun _ => kept store (row :: rows))
    (kept store rows).
Proof.
  intros Hp. unfold save_if. destruct store.
  - now apply hoare_save_kept.
  - intros w [Hc _]. split; [exact Hc | discriminate].
Qed.

Lemma hoare_write_kept (store : bool) (rows : list Row) (style : Style) (msg : string)
  (Exn : World -> Prop) :
  hoare (kept store rows) (stderr_write style msg) (fun _ => kept store rows) Exn.
Proof. intros w Hw. exact Hw. Qed.

Lemma hoare_print_kept (store : bool) (rows : list Row) (msg : string)
  (Exn : World -> Prop) :
  hoare (kept store rows) (print msg) (fun _ => kept store rows) Exn.
Proof. intros w Hw. exact Hw. Qed.

Lemma hoare_lift_kept {A} (P : World -> Prop) (r : result A) :
  hoare P (lift r) (fun _ => P) P.
Proof. apply hoare_lift; auto. Qed.

Lemma label_parent (tk : ThesaurusKeyword.t) (lang label : string) (rows d : list Row) :
  incl (RKeyword tk :: rows) d ->
  parent_in
    (RLabel {| ThesaurusKeywordLabel.keyword := tk;
               ThesaurusKeywordLabel.lang := lang;
               ThesaurusKeywordLabel.label := label |}) d.
Proof. intros Hi. apply Hi. now left. Qed.

Lemma keyword_parent (thesaurus : Thesaurus.t) (about alt_label : string) (d : list Row) :
  incl [RThesaurus thesaurus] d ->
  parent_in
    (RKeyword {| ThesaurusKeyword.thesaurus := thesaurus;
                 ThesaurusKeyword.about := about;
                 ThesaurusKeyword.alt_label := alt_label |}) d.
Proof. intros Hi. apply Hi. now left. Qed.

(** A keyword is saved behind its thesaurus, and what follows may rely on
    it in a run that stores. *)
Lemma hoare_keyword_then {A} (accepts : Sink) (store : bool) (tk : ThesaurusKeyword.t)
  (rest : M A) :
  hoare (kept store [RKeyword tk; RThesaurus (ThesaurusKeyword.thesaurus tk)]) rest
    (fun _ => kept store [RKeyword tk; RThesaurus (ThesaurusKeyword.thesaurus tk)])
    (kept store [RKeyword tk; RThesaurus (ThesaurusKeyword.thesaurus tk)]) ->
  hoare (kept store [RThesaurus (ThesaurusKeyword.thesaurus tk)])
    (save_if store accepts (RKeyword tk) ;; rest)
    (fun _ => kept store [RThesaurus (ThesaurusKeyword.thesaurus tk)])
    (kept store [RThesaurus (ThesaurusKeyword.thesaurus tk)]).
Proof.
  intros Hrest.
  eapply hoare_bind with
    (Mid := fun _ => kept store [RKeyword tk; RThesaurus (ThesaurusKeyword.thesaurus tk)]).
  - apply hoare_save_if_kept. intros d Hd. apply Hd. now left.
  - intros u. eapply hoare_conseq; [exact Hrest | auto | |].
    + intros a w. apply kept_weaken. intros x Hx. now right.
    + intros w. apply kept_weaken. intros x Hx. now right.
Qed.

Lemma agrovoc_label_step_kept (accepts : Sink) (g : Graph) (store lower_case : bool)
  (tk : ThesaurusKeyword.t) (rows : list Row) (e : Term) (i : nat) :
  hoare (kept store (RKeyword tk :: rows)) (Agrovoc.label_step accepts g store lower_case tk e i)
    (fun _ => kept store (RKeyword tk :: rows)) (kept store (RKeyword tk :: rows)).
Proof.
  unfold Agrovoc.label_step. cbv zeta.
  eapply hoare_bind; [apply hoare_lift_kept|].
  intros [lang|]; [|apply hoare_ret; auto].
  destruct (negb (supported lang)); [apply hoare_ret; auto|].
  eapply hoare_bind with (Mid := fun _ => kept store (RKeyword tk :: rows));
    [|intros u; apply hoare_ret; auto].
  destruct store; [|apply hoare_ret; auto].
  eapply hoare_try; [|apply hoare_write_kept].
  eapply hoare_conseq.
  - apply (hoare_save_kept accepts _ (RKeyword tk :: rows)).
    intros d Hd. now apply (label_parent tk _ _ rows).
  - auto.
  - intros u w. apply kept_weaken. intros x Hx. now right.
  - auto.
Qed.

Lemma agrovoc_label_loop_kept (accepts : Sink) (g : Graph) (store lower_case : bool)
  (tk : ThesaurusKeyword.t) (rows : list Row) (elements : list Term) (i : nat) :
  hoare (kept store (RKeyword tk :: rows))
    (Agrovoc.label_loop accepts g store lower_case tk elements i)
    (fun _ => kept store (RKeyword tk :: rows)) (kept store (RKeyword tk :: rows)).
Proof.
  revert i. induction elements as [|e rest IH]; intros i; cbn [Agrovoc.label_loop].
  - apply hoare_ret; auto.
  - eapply hoare_bind; [apply agrovoc_label_step_kept|]. intros i'. apply IH.
Qed.

Lemma agrovoc_concept_step_kept (accepts : Sink) (g : Graph) (thesaurus : Thesaurus.t)
  (store : bool) (defaultlang : string) (lower_case : bool) (concept : string) :
  hoare (kept store [RThesaurus thesaurus])
    (Agrovoc.concept_step accepts g thesaurus store defaultlang lower_case concept)
    (fun _ => kept store [RThesaurus thesaurus]) (kept store [RThesaurus thesaurus]).
Proof.
  unfold Agrovoc.concept_step. cbv zeta.
  destruct (Agrovoc.get_default_language_preflabel g concept defaultlang) as [alt|];
    [|apply hoare_ret; auto].
  cbv beta iota.
  match goal with
  | |- hoare _ (save_if _ _ (RKeyword ?tk) ;; ?rest) _ _ =>
      apply (hoare_keyword_then accepts store tk rest)
  end.
  eapply hoare_bind; [apply agrovoc_label_loop_kept|].
  intros i. apply hoare_write_kept.
Qed.

Lemma gemet_label_step_kept (accepts : Sink) (store lower_case : bool)
  (tk : ThesaurusKeyword.t) (rows : list Row) (pref_label : Term) :
  hoare (kept store (RKeyword tk :: rows)) (Gemet.label_step accepts store lower_case tk pref_label)
    (fun _ => kept store (RKeyword tk :: rows)) (kept store (RKeyword tk :: rows)).
Proof.
  unfold Gemet.label_step. cbv zeta.
  eapply hoare_bind; [apply hoare_lift_kept|]. intros tag.
  eapply hoare_bind; [apply hoare_lift_kept|].
  intros [lang|]; [|apply hoare_ret; auto].
  destruct (supported lang); [|apply hoare_ret; auto].
  eapply hoare_bind; [apply hoare_write_kept|]. intros u.
  eapply hoare_conseq.
  - apply (hoare_save_if_kept store accepts _ (RKeyword tk :: rows)).
    intros d Hd. now apply (label_parent tk _ _ rows).
  - auto.
  - intros a w. apply kept_weaken. intros x Hx. now right.
  - auto.
Qed.

Lemma gemet_concept_step_kept (accepts : Sink) (g : Graph) (thesaurus : Thesaurus.t)
  (store : bool) (defaultlang : string) (lower_case : bool) (concept : string) :
  hoare (kept store [RThesaurus thesaurus])
    (Gemet.concept_step accepts g thesaurus store defaultlang lower_case concept)
    (fun _ => kept store [RThesaurus thesaurus]) (kept store [RThesaurus thesaurus]).
Proof.
  unfold Gemet.concept_step.
  destruct (Gemet.pref_of g concept defaultlang lower_case) as [e|pref];
    [apply hoare_ret; auto|].
  cbv zeta.
  eapply hoare_bind; [apply hoare_write_kept|]. intros u.
  eapply hoare_try; [|apply hoare_print_kept].
  match goal with
  | |- hoare _ (save_if _ _ (RKeyword ?tk) ;; ?rest) _ _ =>
      apply (hoare_keyword_then accepts store tk rest)
  end.
  eapply hoare_bind; [apply hoare_lift_kept|]. intros labels.
  apply hoare_for_each. intros x Hx. apply gemet_label_step_kept.
Qed.

Lemma agrovoc_load_thesaurus_closed (accepts : Sink) (g : Graph)
  (input_file name : string) (store : bool) (title description defaultlang : string)
  (lower_case : bool) :
  hoare (fun w => closed (db w))
    (Agrovoc.load_thesaurus accepts g input_file name store title description defaultlang
       lower_case)
    (fun _ w => closed (db w)) (fun w => closed (db w)).
Proof.
  assert (Hk : forall w, closed (db w) -> kept store [] w).
  { intros w H. split; [exact H|]. intros _ x []. }
  assert (Hc : forall rows w, kept store rows w -> closed (db w)).
  { intros rows w [H _]. exact H. }
  unfold Agrovoc.load_thesaurus.
  eapply hoare_bind; [apply (hoare_stderr_write (fun d _ => closed d))|]. intros u1.
  eapply hoare_bind; [apply (hoare_stderr_write (fun d _ => closed d))|]. intros u2.
  eapply hoare_bind; [apply hoare_lift_kept|]. intros date.
  eapply hoare_bind; [apply hoare_lift_kept|].
  intros [scheme|]; [|intros w H; exact H].
  cbv zeta.
  eapply hoare_bind; [apply hoare_lift_kept|]. intros thesaurus_title.
  eapply hoare_conseq with (Pre' := kept store []) (Post' := fun _ => kept store [RThesaurus _])
    (Exn' := kept store []); [| exact Hk | intros a w; apply Hc | apply Hc].
  eapply hoare_bind.
  - apply hoare_save_if_kept. intros d _. exact I.
  - intros u3. eapply hoare_bind; [apply hoare_write_kept|]. intros u4.
    eapply hoare_conseq; [apply hoare_for_each; intros x Hx; apply agrovoc_concept_step_kept
                         | auto | intros a w H; exact H |].
    intros w. apply kept_weaken. intros x [].
Qed.

Lemma gemet_load_thesaurus_closed (accepts : Sink) (g : Graph)
  (input_file name defaultlang : string) (store lower_case : bool) :
  hoare (fun w => closed (db w))
    (Gemet.load_thesaurus accepts g input_file name defaultlang store lower_case)
    (fun _ w => closed (db w)) (fun w => closed (db w)).
Proof.
  assert (Hk : forall w, closed (db w) -> kept store [] w).
  { intros w H. split; [exact H|]. intros _ x []. }
  assert (Hc : forall rows w, kept store rows w -> closed (db w)).
  { intros rows w [H _]. exact H. }
  unfold Gemet.load_thesaurus.
  eapply hoare_bind; [apply (hoare_stderr_write (fun d _ => closed d))|]. intros u1.
  eapply hoare_bind; [apply hoare_lift_kept|].
  intros [scheme|]; [|intros w H; exact H].
  cbv zeta.
  eapply hoare_bind; [apply hoare_lift_kept|]. intros thesaurus_title.
  eapply hoare_bind; [apply (hoare_stderr_write (fun d _ => closed d))|]. intros u2.
  eapply hoare_conseq with (Pre' := kept store []) (Post' := fun _ => kept store [RThesaurus _])
    (Exn' := kept store []); [| exact Hk | intros a w; apply Hc | apply Hc].
  eapply hoare_bind.
  - apply hoare_save_if_kept. intros d _. exact I.
  - intros u3.
    eapply hoare_conseq; [apply hoare_for_each; intros x Hx; apply gemet_concept_step_kept
                         | auto | intros a w H; exact H |].
    intros w. apply kept_weaken. intros x [].
Qed.

(** Neither loader persists a row before the row it belongs to.  Started on
    rows of which each comes after its parent, both commands end, well or
    with an exception, on such rows: wherever a label stands among the rows
    persisted, its keyword stands before it, and the thesaurus of a keyword
    before the keyword.  A keyword that is refused gets no label persisted. *)
Theorem rows_follow_their_parents
  (accepts : Sink) (g : Graph) (w : World)
  (input_file name title description defaultlang : string) (store lower_case : bool) :
  closed (db w) ->
  (forall pre r post,
      db (fst (Agrovoc.load_thesaurus accepts g input_file name store title description
                 defaultlang lower_case w)) = (pre ++ r :: post)%list ->
      parent_in r pre)
  /\ (forall pre r post,
        db (fst (Gemet.load_thesaurus accepts g input_file name defaultlang store
                   lower_case w)) = (pre ++ r :: post)%list ->
        parent_in r pre).
Proof.
  intros Hw. split; intros pre r post Heq.
  - generalize (agrovoc_load_thesaurus_closed accepts g input_file name store title
                  description defaultlang lower_case w Hw).
    revert Heq.
    destruct (Agrovoc.load_thesaurus accepts g input_file name store title description
                defaultlang lower_case w) as [w' [e|[]]]; cbn [fst];
      intros Heq Hc; exact (closed_parent_before _ pre post r Hc Heq).
  - generalize (gemet_load_thesaurus_closed accepts g input_file name defaultlang store
                  lower_case w Hw).
    revert Heq.
    destruct (Gemet.load_thesaurus accepts g input_file name defaultlang store
                lower_case w) as [w' [e|[]]]; cbn [fst];
      intros Heq Hc; exact (closed_parent_before _ pre post r Hc Heq).
Qed.

Lemma rows_follow_their_parents_witness :
  (forall pre r post,
      db (fst (Agrovoc.load_thesaurus accept_all agrovoc_sample "agrovoc.rdf" "agrovoc" true
                 "AGROVOC" "" "en" false empty_world)) = (pre ++ r :: post)%list ->
      parent_in r pre)
  /\ (forall pre r post,
        db (fst (Gemet.load_thesaurus accept_all agrovoc_sample "agrovoc.rdf" "agrovoc" "en"
                   true false empty_world)) = (pre ++ r :: post)%list ->
        parent_in r pre).
Proof.
  apply (rows_follow_their_parents accept_all agrovoc_sample empty_world "agrovoc.rdf").
  simpl. exact closed_nil.
Defined.

(** ** The label counter *)

Lemma agrovoc_label_step_counts (accepts : Sink) (g : Graph) (store : bool)
  (tk : ThesaurusKeyword.t) (e : Term) (i : nat) (w : World) :
  let run := Agrovoc.label_step accepts g store false tk e i w in
  let n := if counted g false e then 1 else 0 in
  snd run = inr (i + n)
  /\ length (saves (fst run)) = length (saves w) + (if store then n else 0)
  /\ length (db (fst run)) <= length (db w) + (if store then n else 0).
Proof.
  cbv zeta. unfold Agrovoc.label_step, counted. fold (literal_form g e).
  unfold __apply_lower_case__opt, __apply_lower_case__, bind, lift, ret.
  assert (Hi : forall k, @inr Exc nat k = inr (k + 0)) by (intros; f_equal; lia).
  assert (Hs : forall k, @inr Exc nat (S k) = inr (k + 1)) by (intros; f_equal; lia).
  destruct (language (literal_form g e)) as [tag|]; cbv beta iota.
  - destruct (supported tag); cbn [negb]; cbv beta iota.
    + destruct store; cbv beta iota.
      * unfold try_except, save, stderr_write.
        destruct (accepts (db w) _); cbn [fst snd db saves];
          rewrite ?length_app; cbn [length]; repeat split; auto; lia.
      * cbn [fst snd]. repeat split; auto; lia.
    + cbn [fst snd]. repeat split; auto; destruct store; lia.
  - cbn [fst snd]. repeat split; auto; destruct store; lia.
Qed.

Lemma agrovoc_label_loop_counts (accepts : Sink) (g : Graph) (store : bool)
  (tk : ThesaurusKeyword.t) (elements : list Term) (i : nat) (w : World) :
  let run := Agrovoc.label_loop accepts g store false tk elements i w in
  let n := length (filter (counted g false) elements) in
  snd run = inr (i + n)
  /\ length (saves (fst run)) = length (saves w) + (if store then n else 0)
  /\ length (db (fst run)) <= length (db w) + (if store then n else 0).
Proof.
  cbv zeta. revert i w.
  induction elements as [|e rest IH]; intros i w.
  - cbn. repeat split; first [f_equal; lia | destruct store; lia].
  - cbn [Agrovoc.label_loop filter]. unfold bind.
    generalize (agrovoc_label_step_counts accepts g store tk e i w). cbv zeta.
    destruct (Agrovoc.label_step accepts g store false tk e i w) as [w1 [x|i1]];
      cbn [fst snd]; intros (H1 & H2 & H3); [discriminate|].
    injection H1 as ->.
    destruct (IH (i + (if counted g false e then 1 else 0)) w1) as (K1 & K2 & K3).
    rewrite K1, K2.
    destruct (counted g false e); cbn [length];
      repeat split; first [f_equal; lia | destruct store; lia].
Qed.

(** The counter of the AGROVOC label loop counts the labels it tried, not
    the labels it stored: without folding it ends on the count of the
    [skos-xl:prefLabel] targets whose tag is a supported language, in a dry
    run and when the sink refuses labels alike.  A storing run has submitted
    that many rows and persisted at most that many. *)
Theorem agrovoc_label_counter
  (accepts : Sink) (g : Graph) (store : bool) (tk : ThesaurusKeyword.t)
  (elements : list Term) (w : World) :
  let run := Agrovoc.label_loop accepts g store false tk elements 0 w in
  let n := length (filter (counted g false) elements) in
  snd run = inr n
  /\ length (saves (fst run)) = length (saves w) + (if store then n else 0)
  /\ length (db (fst run)) <= length (db w) + (if store then n else 0).
Proof. exact (agrovoc_label_loop_counts accepts g store tk elements 0 w). Qed.

(** ** The title option *)

Lemma same_rows_stderr_write (style : Style) (msg1 msg2 : string) :
  sim same_rows (stderr_write style msg1) (stderr_write style msg2).
Proof. intros w1 w2 H. now split. Qed.

Lemma same_rows_save (accepts : Sink) (row : Row) :
  sim same_rows (save accepts row) (save accepts row).
Proof.
  intros w1 w2 [Hd Hs]. unfold save. rewrite Hd, Hs.
  destruct (accepts (db w2) row); now split.
Qed.

Lemma same_rows_save_if (store : bool) (accepts : Sink) (row : Row) :
  sim same_rows (save_if store accepts row) (save_if store accepts row).
Proof.
  unfold save_if. destruct store; [apply same_rows_save | apply sim_ret].
Qed.

Lemma agrovoc_title_sim (accepts : Sink) (g : Graph)
  (input_file name : string) (store : bool) (title1 title2 description defaultlang : string)
  (lower_case : bool) :
  sim same_rows
    (Agrovoc.load_thesaurus accepts g input_file name store title1 description defaultlang
       lower_case)
    (Agrovoc.load_thesaurus accepts g input_file name store title2 description defaultlang
       lower_case).
Proof.
  unfold Agrovoc.load_thesaurus.
  apply sim_bind; [apply same_rows_stderr_write|]. intros _.
  apply sim_bind; [apply same_rows_stderr_write|]. intros _.
  apply sim_bind_lift. intros date _.
  apply sim_bind_lift. intros [scheme|] _; [|apply sim_raise].
  apply sim_bind_lift. intros thesaurus_title _.
  apply sim_bind; [apply same_rows_save_if|]. intros _.
  apply sim_bind; [apply same_rows_stderr_write|]. intros _.
  apply sim_for_each. intros concept _. unfold Agrovoc.concept_step.
  destruct (Agrovoc.get_default_language_preflabel g concept defaultlang);
    [|apply sim_ret].
  apply sim_bind; [apply same_rows_save_if|]. intros _.
  apply sim_bind; [|intros i; apply same_rows_stderr_write].
  apply (agrovoc_label_loop_sim same_rows accepts accepts store store g).
  intros tkl msg. destruct store; [|apply sim_ret].
  apply sim_try; [apply same_rows_save | apply same_rows_stderr_write].
Qed.

(** [--title] of the AGROVOC command names no thesaurus: two runs that
    differ in it only submit and persist the same rows and end the same way.
    The argument is written to the log; the title of the row is read from
    the file. *)
Theorem agrovoc_title_option_is_only_logged
  (accepts : Sink) (g : Graph) (w : World)
  (input_file name : string) (store : bool) (title1 title2 description defaultlang : string)
  (lower_case : bool) :
  let run1 := Agrovoc.load_thesaurus accepts g input_file name store title1 description
                defaultlang lower_case w in
  let run2 := Agrovoc.load_thesaurus accepts g input_file name store title2 description
                defaultlang lower_case w in
  db (fst run1) = db (fst run2)
  /\ saves (fst run1) = saves (fst run2)
  /\ snd run1 = snd run2.
Proof.
  cbv zeta.
  destruct (agrovoc_title_sim accepts g input_file name store title1 title2 description
              defaultlang lower_case w w (conj eq_refl eq_refl)) as [[Hd Hs] Hr].
  repeat split; auto.
Qed.

(** ** The order of the titles *)

Section KeyFilter.
Variable A : Type.
Variable key : A -> string.

Lemma filter_key_perm (k : string) (l1 l2 : list A) :
  Permutation l1 l2 -> NoDup (map key l1) ->
  filter (fun a => String.eqb (key a) k) l1 = filter (fun a => String.eqb (key a) k) l2.
Proof.
  intros Hp. induction Hp as [|x l l' Hp IH|x y l|l l' l'' Hp1 IH1 Hp2 IH2]; intros Hnd.
  - reflexivity.
  - cbn [filter]. inversion Hnd; subst. now rewrite IH.
  - cbn [filter].
    destruct (String.eqb_spec (key x) k) as [Ex|Ex], (String.eqb_spec (key y) k) as [Ey|Ey];
      try reflexivity.
    exfalso. cbn [map] in Hnd. inversion Hnd as [|? ? Hnotin _]; subst.
    apply Hnotin. left. congruence.
  - rewrite IH1 by exact Hnd. apply IH2.
    apply (Permutation_NoDup (Permutation_map key Hp1) Hnd).
Qed.

Lemma sorted_perm_eq (l1 l2 : list A) :
  Permutation l1 l2 -> NoDup (map key l1) -> sorted key l1 = sorted key l2.
Proof.
  intros Hp Hnd. symmetry. apply stable_sort_unique. repeat split.
  - rewrite <- (sorted_perm _ key l2). exact Hp.
  - apply sorted_sorted.
  - intros k. rewrite sorted_filter. symmetry. now apply filter_key_perm.
Qed.
End KeyFilter.

Lemma scan_sorted_lang_finds (l : list Literal) (default_lang : string) (item : Literal) :
  In item l -> selects default_lang item -> scan_sorted_lang l default_lang <> None.
Proof.
  intros Hin Hsel Hnone. apply scan_sorted_lang_none in Hnone.
  rewrite Forall_forall in Hnone. exact (Hnone item Hin Hsel).
Qed.

(** The title (and the GEMET canonical label) does not depend on the order
    in which the graph yields the candidates, as long as no two of them
    share a language tag and one of them is selected: untagged, or tagged
    with the target language as primary subtag.  (When none is selected the
    first candidate as given is returned, and the order decides.) *)
Theorem value_for_language_order_independent
  (available available' : list Literal) (default_lang : string) (item : Literal) :
  Permutation available available' ->
  NoDup (map lang_key available) ->
  In item available -> selects default_lang item ->
  value_for_language available default_lang = value_for_language available' default_lang.
Proof.
  intros Hp Hnd Hin Hsel. unfold value_for_language. cbv zeta.
  rewrite <- (sorted_perm_eq _ lang_key available available' Hp Hnd).
  assert (Hs : In item (sorted lang_key available)).
  { apply (Permutation_in _ (sorted_perm _ lang_key available) Hin). }
  pose proof (scan_sorted_lang_finds _ default_lang item Hs Hsel) as Hne.
  destruct (scan_sorted_lang (sorted lang_key available) default_lang);
    [reflexivity | contradiction].
Qed.

Lemma value_for_language_order_independent_witness :
  value_for_language
    [mkLiteral "Thesaurus" (Some "fr") None; mkLiteral "Wortschatz" (Some "de") None] "de"
  = value_for_language
      [mkLiteral "Wortschatz" (Some "de") None; mkLiteral "Thesaurus" (Some "fr") None] "de".
Proof.
  apply (value_for_language_order_independent _ _ "de" (mkLiteral "Wortschatz" (Some "de") None)).
  - apply perm_swap.
  - simpl. repeat constructor; simpl; intuition discriminate.
  - right. left. reflexivity.
  - right. exists "de". split; reflexivity.
Defined.
